(** * color_name_picker: the Name Normalizer and the Greedy Matcher

    A shallow embedding of [color_name_picker.py].  The script reads a palette
    ([colors.json]) and a catalog of named colors ([colors.txt]), filters the
    catalog into a candidate list, and then repeatedly pairs the closest
    remaining (palette entry, candidate) couple.

    Conventions of the embedding:
    - Python [int] is [Z]; list indices are [nat].
    - Python [str] is [string].  The character classes used by the script
      ([str.split], [str.isdigit], [str.lower], [str.upper]) are given on the
      ASCII range, which is the alphabet of the catalog; a character above
      127 is treated as an ordinary symbol.
    - A raised exception is a value of [exn]; a computation that can raise
      returns [except A].
    - [set] is [gset]; [list] is [list], with [l !! i] for [l[i]] and
      [delete i l] for [del l[i]]. *)

From Stdlib Require Import ZArith Ascii String DecimalString.
From stdpp Require Import base decidable option list gmap strings sorting.

Local Open Scope string_scope.
Local Open Scope list_scope.
Local Open Scope Z_scope.

(** ** Exceptions *)

Inductive exn : Type :=
  | ValueError   (* unpacking a sequence of the wrong length, or [int()] on a non-integer *)
  | IndexError.  (* indexing a sequence out of range *)

Inductive except (A : Type) : Type :=
  | Ok (a : A)
  | Raise (e : exn).
Arguments Ok {A} a.
Arguments Raise {A} e.

#[global] Instance except_ret : MRet except := λ _ a, Ok a.
#[global] Instance except_bind : MBind except := λ _ _ k m,
  match m with
  | Ok a => k a
  | Raise e => Raise e
  end.

(** [o] when it is there, the exception [e] otherwise. *)
Definition or_raise {A} (e : exn) (o : option A) : except A :=
  match o with
  | Some a => Ok a
  | None => Raise e
  end.

(** ** Python string primitives *)

Module Py.

Definition code (c : ascii) : nat := nat_of_ascii c.

(** [c.isspace()] on ASCII: TAB, LF, VT, FF, CR, FS, GS, RS, US and SPACE. *)
Definition isspace (c : ascii) : bool :=
  let n := code c in
  ((9 <=? n) && (n <=? 13) || (28 <=? n) && (n <=? 32))%nat.

(** [c.isdigit()] on ASCII. *)
Definition isdigit (c : ascii) : bool :=
  let n := code c in ((48 <=? n) && (n <=? 57))%nat.

(** [c.lower()] and [c.upper()] on ASCII. *)
Definition lower_char (c : ascii) : ascii :=
  let n := code c in
  if ((65 <=? n) && (n <=? 90))%nat then ascii_of_nat (n + 32) else c.

Definition upper_char (c : ascii) : ascii :=
  let n := code c in
  if ((97 <=? n) && (n <=? 122))%nat then ascii_of_nat (n - 32) else c.

Fixpoint lower (s : string) : string :=
  match s with
  | EmptyString => EmptyString
  | String c s' => String (lower_char c) (lower s')
  end.

Definition chars (s : string) : list ascii := list_ascii_of_string s.

(** [any(p(x) for x in s)] *)
Definition any (p : ascii → bool) (s : string) : bool := existsb p (chars s).

(** [c in s] for a one-character string [c]. *)
Definition contains_char (c : ascii) (s : string) : bool :=
  any (Ascii.eqb c) s.

(** [s.startswith(p)] *)
Definition startswith (p s : string) : bool := String.prefix p s.

Fixpoint drop_chars (n : nat) (s : string) : string :=
  match n, s with
  | O, _ => s
  | S n', String _ s' => drop_chars n' s'
  | S _, EmptyString => EmptyString
  end.

(** [s.replace(old, new)] for a non-empty [old]: the non-overlapping
    occurrences of [old] are replaced from left to right.  The recursion
    consumes at least one character per step, so [S (length s)] steps
    suffice. *)
Fixpoint replace_from (fuel : nat) (old new s : string) : string :=
  match fuel with
  | O => s
  | S fuel' =>
      match s with
      | EmptyString => EmptyString
      | String c s' =>
          if String.prefix old s
          then new +:+ replace_from fuel' old new (drop_chars (String.length old) s)
          else String c (replace_from fuel' old new s')
      end
  end.

Definition replace (old new s : string) : string :=
  replace_from (S (String.length s)) old new s.

(** [s.split(sep)] for a one-character separator: the fields between the
    separators, empty fields included; always at least one field. *)
Fixpoint split_on (sep : ascii) (s : string) : list string :=
  match s with
  | EmptyString => [EmptyString]
  | String c s' =>
      if Ascii.eqb c sep then EmptyString :: split_on sep s'
      else match split_on sep s' with
           | w :: ws => String c w :: ws
           | [] => [String c EmptyString]
           end
  end.

(** [s.split()]: the maximal runs of non-whitespace characters. *)
Fixpoint split_ws (s : string) : list string :=
  match s with
  | EmptyString => []
  | String c s' =>
      if isspace c then split_ws s'
      else match s' with
           | EmptyString => [String c EmptyString]
           | String c' _ =>
               if isspace c' then String c EmptyString :: split_ws s'
               else match split_ws s' with
                    | w :: ws => String c w :: ws
                    | [] => [String c EmptyString]
                    end
           end
  end.

(** [int(s)] on a token without surrounding whitespace: an optional sign,
    then decimal digits, where single underscores may separate digits.
    [None] stands for the ValueError.  (The interpreter's configurable cap on
    the number of digits is left out.) *)
Definition digit_val (c : ascii) : Z := Z.of_nat (code c) - 48.

Fixpoint int_digits (acc : Z) (after_digit : bool) (s : string) : option Z :=
  match s with
  | EmptyString => if after_digit then Some acc else None
  | String c s' =>
      if isdigit c then int_digits (10 * acc + digit_val c) true s'
      else if Ascii.eqb c "_" then
        if after_digit then int_digits acc false s' else None
      else None
  end.

Definition int (s : string) : option Z :=
  match s with
  | String "-" s' => Z.opp <$> int_digits 0 false s'
  | String "+" s' => int_digits 0 false s'
  | _ => int_digits 0 false s
  end.

(** [str(n)] for an integer. *)
Definition str (n : Z) : string := NilZero.string_of_int (Z.to_int n).

End Py.

(** ** Data model *)

(** A palette entry of [colors.json]: the object's ["colorId"] and the
    ["r"], ["g"], ["b"] of its ["rgb"] object.  (Its ["name"] is only read by
    commented-out code.) *)
Record palette_color : Type := PaletteColor {
  colorId : Z;
  rgb : Z * Z * Z
}.

(** An element of [all_colors]: [((int(r), int(g), int(b)), name, has_num)]. *)
Definition candidate : Type := (Z * Z * Z) * string * bool.

Definition cand_rgb (a : candidate) : Z * Z * Z := a.1.1.
Definition cand_name (a : candidate) : string := a.1.2.
Definition cand_has_num (a : candidate) : bool := a.2.

(** [float("inf")] or an [int]. *)
Inductive num : Type :=
  | Inf
  | Fin (z : Z).

(** [x > d] for an integer [d]. *)
Definition num_gt (x : num) (d : Z) : bool :=
  match x with
  | Inf => true
  | Fin z => d <? z
  end.

(** An element of [new_colors_names]:
    [(test_color, best_dist, color, better_name)]. *)
Record match_result : Type := MatchResult {
  test_color : string;
  res_dist : num;
  res_color : palette_color;
  better_name : string
}.

Definition palette_id (m : match_result) : Z := colorId (res_color m).
Definition assigned_name (m : match_result) : string := better_name m.

(** ** [list.sort(key=...)]

    Python's sort is stable and ascending in the key; it is modelled by the
    stable insertion sort. *)

Section Sort.
Context {A K : Type} (leb : K → K → bool) (key : A → K).

Fixpoint insert_by (x : A) (l : list A) : list A :=
  match l with
  | [] => [x]
  | y :: l' => if leb (key x) (key y) then x :: l else y :: insert_by x l'
  end.

Definition sort_by (l : list A) : list A := foldr insert_by [] l.
End Sort.

(** [False <= True] *)
Definition bool_leb (x y : bool) : bool := implb x y.

(** ** The Name Normalizer (lines 6-57) *)

(** Lines 6-10: one row per line of [colors.txt], each split at the tabs. *)
Definition read_color_names (text : string) : list (list string) :=
  Py.split_on "009" <$> Py.split_on "010" text.

Record norm_state : Type := NormState {
  all_colors : list candidate;
  all_colors_names : gset string;
  all_colors_rgbs : gset (string * string * string)
}.

(** Lines 12-14. *)
Definition norm_init : norm_state :=
  {| all_colors := []; all_colors_names := ∅; all_colors_rgbs := ∅ |}.

Definition basic_colors : list string :=
  ["black"; "red"; "green"; "yellow"; "blue"; "magenta"; "cyan"; "white"].

(** Lines 16-53, one turn of the [for] loop.  Each [continue] returns the
    state as it is. *)
Definition normalize_row (st : norm_state) (row : list string) : except norm_state :=
  match row with
  | [rgb_string; _; name] =>
      match Py.split_ws rgb_string with
      | [r; g; b] =>
          if bool_decide ((r, g, b) ∈ all_colors_rgbs st) then Ok st
          else if Py.contains_char " " name then Ok st
          else if Py.startswith "X11" name then Ok st
          else if Py.startswith "Web" name then Ok st
          else
            let name := Py.replace "Grey" "Gray" name in
            if bool_decide (name ∈ all_colors_names st) then Ok st
            else if bool_decide (Py.lower name ∈ basic_colors) then Ok st
            else
              let has_num := Py.any Py.isdigit name in
              let names := all_colors_names st ∪ {[ name ]} in
              ri ← or_raise ValueError (Py.int r);
              gi ← or_raise ValueError (Py.int g);
              bi ← or_raise ValueError (Py.int b);
              Ok {| all_colors := all_colors st ++ [((ri, gi, bi), name, has_num)];
                    all_colors_names := names;
                    all_colors_rgbs := all_colors_rgbs st |}
      | _ => Raise ValueError
      end
  | _ => Raise ValueError
  end.

Fixpoint normalize_rows (st : norm_state) (rows : list (list string)) : except norm_state :=
  match rows with
  | [] => Ok st
  | row :: rows' => st' ← normalize_row st row; normalize_rows st' rows'
  end.

(** Lines 12-57: the candidate list, sorted on [has_num]. *)
Definition normalizer (color_names : list (list string)) : except (list candidate) :=
  st ← normalize_rows norm_init color_names;
  Ok (sort_by bool_leb cand_has_num (all_colors st)).

(** ** The Greedy Matcher (lines 61-111) *)

(** Line 75. *)
Definition distance (c : palette_color) (a : candidate) : Z :=
  let '(cr, cg, cb) := rgb c in
  let '(r, g, b) := cand_rgb a in
  (r - cr) ^ 2 + (g - cg) ^ 2 + (b - cb) ^ 2.

(** [(best_dist, best_index)] *)
Definition best : Type := num * option (nat * nat).

(** Lines 75-79. *)
Definition consider (i j : nat) (dist : Z) (st : best) : best :=
  if num_gt st.1 dist then (Fin dist, Some (i, j)) else st.

(** Lines 74-79: the inner loop, from index [j] on. *)
Fixpoint scan_candidates (i : nat) (current_color : palette_color)
    (j : nat) (cands : list candidate) (st : best) : best :=
  match cands with
  | [] => st
  | a :: cands' =>
      scan_candidates i current_color (S j) cands'
        (consider i j (distance current_color a) st)
  end.

(** Lines 70-79: the outer loop, from index [i] on. *)
Fixpoint scan_colors (i : nat) (colors : list palette_color)
    (cands : list candidate) (st : best) : best :=
  match colors with
  | [] => st
  | current_color :: colors' =>
      scan_colors (S i) colors' cands (scan_candidates i current_color 0 cands st)
  end.

(** Lines 66-79. *)
Definition scan (colors : list palette_color) (cands : list candidate) : best :=
  scan_colors 0 colors cands (Inf, None).

(** Line 92: [better_name[0].upper() + better_name[1:]]. *)
Definition capitalize (name : string) : except string :=
  match name with
  | EmptyString => Raise IndexError
  | String c rest => Ok (String (Py.upper_char c) rest)
  end.

(** Line 95. *)
Definition make_test_color (color : palette_color) : string :=
  String "027" "[38;5;" +:+ Py.str (colorId color) +:+ "mtest" +:+ String "027" "[0m".

(** What one turn of the [while] loop does. *)
Inductive step : Type :=
  | Break
  | Raises (e : exn)
  | Commit (m : match_result) (colors : list palette_color) (cands : list candidate).

(** Lines 66-111.  The two [del]s are in range whenever the two lookups
    before them are. *)
Definition iteration (colors : list palette_color) (cands : list candidate) : step :=
  let '(best_dist, best_index) := scan colors cands in
  match best_index with
  | None => Break
  | Some (i, j) =>
      match cands !! j with
      | None => Raises IndexError
      | Some a =>
          match capitalize (cand_name a) with
          | Raise e => Raises e
          | Ok name =>
              match colors !! i with
              | None => Raises IndexError
              | Some color =>
                  Commit {| test_color := make_test_color color;
                            res_dist := best_dist;
                            res_color := color;
                            better_name := name |}
                         (delete i colors) (delete j cands)
              end
          end
      end
  end.

Inductive exit : Type :=
  | Finished
  | Raised (e : exn)
  | OutOfFuel.

(** Lines 65-111: the [while True] loop, with [new_colors_names] as the
    accumulator.  The result is the list as the loop leaves it and how the
    loop was left. *)
Fixpoint match_loop (fuel : nat) (colors : list palette_color) (cands : list candidate)
    (new_colors_names : list match_result) : list match_result * exit :=
  match fuel with
  | O => (new_colors_names, OutOfFuel)
  | S fuel' =>
      match iteration colors cands with
      | Break => (new_colors_names, Finished)
      | Raises e => (new_colors_names, Raised e)
      | Commit m colors' cands' =>
          match_loop fuel' colors' cands' (new_colors_names ++ [m])
      end
  end.

(** Every committed turn deletes one palette entry, so one more turn than
    there are entries is enough. *)
Definition matcher (colors : list palette_color) (cands : list candidate)
    : list match_result * exit :=
  match_loop (S (length colors)) colors cands [].

(** ** The script *)

(** Lines 6-113 for a palette [colors] (the content of [colors.json]) and the
    text of [colors.txt]: the final [new_colors_names], sorted on [colorId]
    when the loop finished. *)
Definition main (colors : list palette_color) (text : string)
    : list match_result * exit :=
  match normalizer (read_color_names text) with
  | Raise e => ([], Raised e)
  | Ok cands =>
      let colors := drop 16 colors in
      match matcher colors cands with
      | (new_colors_names, Finished) =>
          (sort_by Z.leb palette_id new_colors_names, Finished)
      | aborted => aborted
      end
  end.

(** ** Auxiliary notions for the statements *)

(** The row [(_, _, name)] with the RGB tokens [r g b] gets past every
    [continue] of lines 19-41. *)
Definition passes_filters (st : norm_state) (r g b name : string) : bool :=
  negb (bool_decide ((r, g, b) ∈ all_colors_rgbs st))
  && negb (Py.contains_char " " name)
  && negb (Py.startswith "X11" name)
  && negb (Py.startswith "Web" name)
  && negb (bool_decide (Py.replace "Grey" "Gray" name ∈ all_colors_names st))
  && negb (bool_decide (Py.lower (Py.replace "Grey" "Gray" name) ∈ basic_colors)).

(** The state after an accepted row. *)
Definition accept (st : norm_state) (rgb : Z * Z * Z) (name : string) : norm_state :=
  {| all_colors := all_colors st ++ [(rgb, name, Py.any Py.isdigit name)];
     all_colors_names := all_colors_names st ∪ {[ name ]};
     all_colors_rgbs := all_colors_rgbs st |}.

(** [int(r), int(g), int(b)] *)
Definition int3 (r g b : string) : option (Z * Z * Z) :=
  match Py.int r, Py.int g, Py.int b with
  | Some ri, Some gi, Some bi => Some (ri, gi, bi)
  | _, _, _ => None
  end.

(** The names of the candidates are recorded in [all_colors_names] and are
    pairwise different. *)
Definition names_inv (st : norm_state) : Prop :=
  NoDup (cand_name <$> all_colors st) ∧
  ∀ a, a ∈ all_colors st → cand_name a ∈ all_colors_names st.


(** The order in which the scan of lines 70-79 meets the index pairs:
    palette entries outer, candidates inner. *)
Definition scan_lt (p q : nat * nat) : Prop :=
  (p.1 < q.1 ∨ (p.1 = q.1 ∧ p.2 < q.2))%nat.

Definition scan_le (p q : nat * nat) : Prop :=
  (p.1 < q.1 ∨ (p.1 = q.1 ∧ p.2 ≤ q.2))%nat.

(** [st] is what the scan holds when the pairs before [(i, j)] have been
    met: nothing if there is no such pair, and otherwise the first of them
    with the least distance. *)
Definition best_upto (colors : list palette_color) (cands : list candidate)
    (i j : nat) (st : best) : Prop :=
  match st with
  | (Inf, None) =>
      ∀ i' j' c' a', scan_lt (i', j') (i, j) →
        colors !! i' = Some c' → cands !! j' = Some a' → False
  | (Fin d, Some (bi, bj)) =>
      scan_lt (bi, bj) (i, j) ∧
      ∃ c a, colors !! bi = Some c ∧ cands !! bj = Some a ∧ d = distance c a ∧
        ∀ i' j' c' a', scan_lt (i', j') (i, j) →
          colors !! i' = Some c' → cands !! j' = Some a' →
          d ≤ distance c' a' ∧ (distance c' a' = d → scan_le (bi, bj) (i', j'))
  | _ => False
  end.

(** The name with its first character in upper case, when there is one. *)
Definition capitalized (name : string) : string :=
  match name with
  | EmptyString => EmptyString
  | String c rest => String (Py.upper_char c) rest
  end.

(** [(i, j)] is a pair of least distance, and the first such pair that the
    scan meets. *)
Definition first_closest (colors : list palette_color) (cands : list candidate)
    (i j : nat) (c : palette_color) (a : candidate) : Prop :=
  colors !! i = Some c ∧ cands !! j = Some a ∧
  ∀ i' j' c' a', colors !! i' = Some c' → cands !! j' = Some a' →
    distance c a ≤ distance c' a' ∧
    (distance c' a' = distance c a → scan_le (i, j) (i', j')).

(** The Match Result of the pair [(c, a)], for a non-empty name. *)
Definition result_of (c : palette_color) (a : candidate) : match_result :=
  {| test_color := make_test_color c;
     res_dist := Fin (distance c a);
     res_color := c;
     better_name := capitalized (cand_name a) |}.

(** [rgb_string] holds three whitespace-separated integers. *)
Definition is_rgb_triple (rgb_string : string) : bool :=
  match Py.split_ws rgb_string with
  | [r; g; b] => bool_decide (is_Some (int3 r g b))
  | _ => false
  end.

(** Text of [colors.txt]: a row, and rows joined by newlines. *)
Definition catalog_row (rgb_string field name : string) : string :=
  rgb_string +:+ String "009" field +:+ String "009" name.

Fixpoint catalog_text (rows : list string) : string :=
  match rows with
  | [] => EmptyString
  | [row] => row
  | row :: rows' => row +:+ String "010" (catalog_text rows')
  end.

(** Sixteen reserved palette entries, with the ids 0 to 15. *)
Definition reserved16 : list palette_color :=
  (λ n, PaletteColor (Z.of_nat n) (0, 0, 0)) <$> seq 0 16.

(** ** Auxiliary notions for the further properties *)

(** [sub in s] *)
Fixpoint occurs (sub s : string) : bool :=
  String.prefix sub s
  || match s with
     | EmptyString => false
     | String _ s' => occurs sub s'
     end.

(** [t] is [s] with some of its characters turned into ["a"]. *)
Inductive same_or_a : string → string → Prop :=
  | same_or_a_nil : same_or_a EmptyString EmptyString
  | same_or_a_cons c c' s t :
      c' = c ∨ c' = "a"%char → same_or_a s t → same_or_a (String c s) (String c' t).

(** The third field of a row, if it has one. *)
Definition raw_name (row : list string) : option string := row !! 2%nat.

(** Space, tab or newline. *)
Definition is_blank (c : ascii) : bool :=
  Ascii.eqb c " " || Ascii.eqb c "009" || Ascii.eqb c "010".

(** Sample rows of a catalog, and the candidates they give. *)
Definition sample_rows : list (list string) :=
  [["190 190 190"; "0"; "Grey"];
   ["190 190 190"; "1"; "Gray"];
   ["0 0 255"; "2"; "Blue"];
   ["0 0 254"; "3"; "Blue1"];
   ["112 128 144"; "4"; "SlateGrey"];
   ["112 128 144"; "5"; "X11Gray"];
   ["255 0 0"; "6"; "Web Red"];
   ["46 139 87"; "7"; "seagreen"]].

Definition sample_candidates : list candidate :=
  [((190, 190, 190), "Gray", false);
   ((112, 128, 144), "SlateGray", false);
   ((46, 139, 87), "seagreen", false);
   ((0, 0, 254), "Blue1", true)].

(** * Properties *)

(** ** The string primitives on sample inputs *)

Example split_ws_runs : Py.split_ws "  190 190   190 " = ["190"; "190"; "190"].
Proof. reflexivity. Qed.

Example split_on_tab :
  Py.split_on "009" (catalog_row "12 12 12" "0" "nearblack")
  = ["12 12 12"; "0"; "nearblack"].
Proof. reflexivity. Qed.

Example split_on_trailing_newline :
  Py.split_on "010" (catalog_text ["a"; "b"; ""]) = ["a"; "b"; ""].
Proof. reflexivity. Qed.

Example replace_Grey : Py.replace "Grey" "Gray" "LightSlateGreyGrey" = "LightSlateGrayGray".
Proof. reflexivity. Qed.

Example int_samples :
  (Py.int "255", Py.int "-1_0", Py.int "+007", Py.int "1__0", Py.int "a", Py.int "")
  = (Some 255, Some (-10), Some 7, None, None, None).
Proof. reflexivity. Qed.

Example lower_samples : Py.lower "RED" = "red" ∧ capitalized "slateblue" = "Slateblue".
Proof. split; reflexivity. Qed.

(** ** Sorting on a boolean key *)

Section SortBool.
Context {A : Type} (key : A → bool).

Lemma insert_by_false x l :
  key x = false → insert_by bool_leb key x l = x :: l.
Proof. intros Hx. destruct l as [|y l]; simpl; [done|]. by rewrite Hx. Qed.

Lemma insert_by_true x (fs ts : list A) :
  key x = true →
  Forall (λ a, key a = false) fs →
  Forall (λ a, key a = true) ts →
  insert_by bool_leb key x (fs ++ ts) = fs ++ x :: ts.
Proof.
  intros Hx Hfs Hts. induction Hfs as [|y fs Hy _ IH]; simpl.
  - destruct Hts as [|z ts Hz _]; simpl; [done|]. by rewrite Hx, Hz.
  - by rewrite Hx, Hy, IH.
Qed.

Lemma sort_by_bool l :
  sort_by bool_leb key l
  = filter (λ a, key a = false) l ++ filter (λ a, key a = true) l.
Proof.
  induction l as [|x l IH]; [done|].
  change (sort_by bool_leb key (x :: l))
    with (insert_by bool_leb key x (sort_by bool_leb key l)).
  rewrite IH, !filter_cons. destruct (key x) eqn:Hx.
  - rewrite decide_False, decide_True by done.
    apply insert_by_true; [done| |]; apply Forall_forall; intros a Ha;
      by apply list_elem_of_filter in Ha as [? _].
  - rewrite decide_True, decide_False by done.
    by apply insert_by_false.
Qed.
End SortBool.

(** ** Sorting permutes *)

Section SortPerm.
Context {A K : Type} (leb : K → K → bool) (key : A → K).

Lemma insert_by_perm x l : insert_by leb key x l ≡ₚ x :: l.
Proof.
  induction l as [|y l IH]; simpl; [done|].
  destruct (leb (key x) (key y)); [done|].
  rewrite IH. apply Permutation_swap.
Qed.

Lemma sort_by_perm l : sort_by leb key l ≡ₚ l.
Proof.
  induction l as [|x l IH]; [done|].
  change (sort_by leb key (x :: l)) with (insert_by leb key x (sort_by leb key l)).
  by rewrite insert_by_perm, IH.
Qed.
End SortPerm.

Lemma insert_by_fmap {A B K} (leb : K → K → bool) (key : B → K) (f : A → B) x k :
  insert_by leb key (f x) (f <$> k) = f <$> insert_by leb (key ∘ f) x k.
Proof.
  induction k as [|y k IH]; [done|].
  rewrite fmap_cons. simpl.
  destruct (leb (key (f x)) (key (f y))); [done|].
  rewrite fmap_cons. f_equal. exact IH.
Qed.

Lemma sort_by_fmap {A B K} (leb : K → K → bool) (key : B → K) (f : A → B) l :
  sort_by leb key (f <$> l) = f <$> sort_by leb (key ∘ f) l.
Proof.
  induction l as [|x l IH]; [done|].
  rewrite fmap_cons.
  change (sort_by leb key (f x :: (f <$> l)))
    with (insert_by leb key (f x) (sort_by leb key (f <$> l))).
  change (sort_by leb (key ∘ f) (x :: l))
    with (insert_by leb (key ∘ f) x (sort_by leb (key ∘ f) l)).
  by rewrite IH, insert_by_fmap.
Qed.

(** ** The Name Normalizer *)

Lemma normalize_row_eq st rgb_string x name :
  normalize_row st [rgb_string; x; name] =
  match Py.split_ws rgb_string with
  | [r; g; b] =>
      if passes_filters st r g b name then
        match int3 r g b with
        | Some rgb => Ok (accept st rgb (Py.replace "Grey" "Gray" name))
        | None => Raise ValueError
        end
      else Ok st
  | _ => Raise ValueError
  end.
Proof.
  unfold normalize_row, passes_filters, int3, accept.
  destruct (Py.split_ws rgb_string) as [|r [|g [|b [|? ?]]]]; try done.
  repeat (match goal with
          | |- context [if ?c then _ else _] => destruct c; simpl; try done
          end).
  destruct (Py.int r), (Py.int g), (Py.int b); done.
Qed.

(** What a row can do to the state: leave it, or append one candidate. *)
Lemma normalize_row_Ok st row st' :
  normalize_row st row = Ok st' →
  st' = st ∨
  ∃ rgb name, st' = accept st rgb name ∧ name ∉ all_colors_names st.
Proof.
  destruct row as [|rgb_string [|x [|name [|? ?]]]]; try done.
  rewrite normalize_row_eq.
  destruct (Py.split_ws rgb_string) as [|r [|g [|b [|? ?]]]]; try done.
  destruct (passes_filters st r g b name) eqn:Hp; [|intros [= <-]; by left].
  destruct (int3 r g b) as [rgb|]; [|done].
  intros [= <-]. right. eexists _, _. split; [done|].
  unfold passes_filters in Hp.
  repeat (apply andb_prop in Hp as [Hp ?]).
  match goal with H : negb (bool_decide (_ ∈ all_colors_names st)) = true |- _ =>
    apply negb_true_iff, bool_decide_eq_false in H; exact H end.
Qed.

(** Nothing ever enters [all_colors_rgbs]. *)
Lemma normalize_rows_rgbs rows st st' :
  normalize_rows st rows = Ok st' → all_colors_rgbs st' = all_colors_rgbs st.
Proof.
  revert st. induction rows as [|row rows IH]; intros st; simpl.
  - by intros [= <-].
  - destruct (normalize_row st row) as [st1|] eqn:Hrow; [|done]. simpl.
    intros H. rewrite (IH _ H).
    apply normalize_row_Ok in Hrow as [->|(? & ? & -> & _)]; done.
Qed.

Lemma names_inv_init : names_inv norm_init.
Proof. split; [constructor|]. intros a Ha. by apply elem_of_nil in Ha. Qed.

Lemma names_inv_row st row st' :
  names_inv st → normalize_row st row = Ok st' → names_inv st'.
Proof.
  intros [Hnd Hin] [->|(rgb & name & -> & Hfresh)]%normalize_row_Ok; [done|].
  split; simpl.
  - rewrite fmap_app. apply NoDup_app. split; [done|]. split.
    + intros n Hn Hn'. apply list_elem_of_singleton in Hn'. simpl in Hn'.
      apply list_elem_of_fmap in Hn as (a & Heq & Ha).
      change (n = name) in Hn'. rewrite Hn' in Heq.
      apply Hfresh. rewrite Heq. by apply Hin.
    + apply NoDup_singleton.
  - intros a [Ha| ->%list_elem_of_singleton]%elem_of_app.
    + apply elem_of_union_l. by apply Hin.
    + apply elem_of_union_r. by apply elem_of_singleton.
Qed.

Lemma names_inv_rows rows st st' :
  names_inv st → normalize_rows st rows = Ok st' → names_inv st'.
Proof.
  revert st. induction rows as [|row rows IH]; intros st Hinv; simpl.
  - by intros [= <-].
  - destruct (normalize_row st row) as [st1|] eqn:Hrow; [|done]. simpl.
    apply IH. by eapply names_inv_row.
Qed.

(** No two candidates of the normalizer's list have the same name. *)
Lemma normalizer_names_NoDup rows cands :
  normalizer rows = Ok cands → NoDup (cand_name <$> cands).
Proof.
  unfold normalizer.
  destruct (normalize_rows norm_init rows) as [st|] eqn:Hrows; [|done]. simpl.
  intros [= <-]. rewrite sort_by_perm.
  by apply (names_inv_rows _ _ _ names_inv_init Hrows).
Qed.

(** ** The scan *)

Section Scan.
Context (colors : list palette_color) (cands : list candidate).

(** Two positions with the same pairs before them. *)
Lemma best_upto_same i j i2 j2 st :
  (∀ i' j', (i' < length colors)%nat → (j' < length cands)%nat →
     scan_lt (i', j') (i, j) ↔ scan_lt (i', j') (i2, j2)) →
  best_upto colors cands i j st → best_upto colors cands i2 j2 st.
Proof.
  intros Hsame. destruct st as [[|d] [[bi bj]|]]; simpl; try done.
  - intros H i' j' c' a' Hlt Hc Ha. eapply H; [|done..].
    apply Hsame; [by eapply lookup_lt_Some..|done].
  - intros (Hb & c & a & Hc & Ha & -> & Hmin). split.
    { apply Hsame; [by eapply lookup_lt_Some..|done]. }
    exists c, a. do 3 (split; [done|]).
    intros i' j' c' a' Hlt Hc' Ha'. eapply Hmin; [|done..].
    apply Hsame; [by eapply lookup_lt_Some..|done].
Qed.

(** Lines 75-79 keep the invariant. *)
Lemma best_upto_consider i j c a st :
  colors !! i = Some c → cands !! j = Some a →
  best_upto colors cands i j st →
  best_upto colors cands i (S j) (consider i j (distance c a) st).
Proof.
  intros Hc Ha.
  assert (Hcases : ∀ i' j', scan_lt (i', j') (i, S j) →
            scan_lt (i', j') (i, j) ∨ (i' = i ∧ j' = j)).
  { unfold scan_lt; simpl; lia. }
  destruct st as [[|d] [[bi bj]|]]; unfold consider; simpl; try done.
  - intros Hnone. split; [unfold scan_lt; simpl; lia|].
    exists c, a. do 3 (split; [done|]).
    intros i' j' c' a' [Hlt|[-> ->]]%Hcases Hc' Ha'.
    + destruct (Hnone _ _ _ _ Hlt Hc' Ha').
    + simplify_eq. split; [lia|]. intros _. unfold scan_le; simpl; lia.
  - intros (Hb & c0 & a0 & Hc0 & Ha0 & -> & Hmin).
    destruct (Z.ltb_spec (distance c a) (distance c0 a0)) as [Hless|Hge]; simpl.
    + split; [unfold scan_lt; simpl; lia|].
      exists c, a. do 3 (split; [done|]).
      intros i' j' c' a' [Hlt|[-> ->]]%Hcases Hc' Ha'.
      * destruct (Hmin _ _ _ _ Hlt Hc' Ha') as [Hle _]. split; lia.
      * simplify_eq. split; [lia|]. intros _. unfold scan_le; simpl; lia.
    + split; [unfold scan_lt in *; simpl in *; lia|].
      exists c0, a0. do 3 (split; [done|]).
      intros i' j' c' a' [Hlt|[-> ->]]%Hcases Hc' Ha'.
      * by apply Hmin.
      * simplify_eq. split; [lia|]. intros _.
        unfold scan_lt, scan_le in *; simpl in *; lia.
Qed.

Lemma best_upto_candidates i c rest j st :
  colors !! i = Some c → drop j cands = rest →
  best_upto colors cands i j st →
  best_upto colors cands (S i) 0 (scan_candidates i c j rest st).
Proof.
  intros Hc. revert j st. induction rest as [|a rest IH]; intros j st Hdrop Hst; simpl.
  - apply drop_nil_inv in Hdrop.
    revert Hst. apply best_upto_same. intros i' j' _ Hj'.
    unfold scan_lt; simpl; lia.
  - assert (Ha : cands !! j = Some a).
    { rewrite <- (Nat.add_0_r j), <- lookup_drop, Hdrop. done. }
    apply IH.
    + rewrite (drop_S _ _ _ Ha) in Hdrop. by injection Hdrop.
    + by apply best_upto_consider.
Qed.

Lemma best_upto_colors rest i st :
  drop i colors = rest →
  best_upto colors cands i 0 st →
  best_upto colors cands (length colors) 0 (scan_colors i rest cands st).
Proof.
  revert i st. induction rest as [|c rest IH]; intros i st Hdrop Hst; simpl.
  - apply drop_nil_inv in Hdrop.
    revert Hst. apply best_upto_same. intros i' j' Hi' _.
    unfold scan_lt; simpl; lia.
  - assert (Hc : colors !! i = Some c).
    { rewrite <- (Nat.add_0_r i), <- lookup_drop, Hdrop. done. }
    apply IH.
    + rewrite (drop_S _ _ _ Hc) in Hdrop. by injection Hdrop.
    + by apply (best_upto_candidates i c cands 0).
Qed.

Lemma best_upto_scan :
  best_upto colors cands (length colors) 0 (scan colors cands).
Proof.
  apply (best_upto_colors colors 0); [done|].
  intros i' j' c' a' Hlt. unfold scan_lt in Hlt; simpl in Hlt; lia.
Qed.
End Scan.

Lemma scan_spec colors cands :
  match scan colors cands with
  | (Inf, None) => colors = [] ∨ cands = []
  | (Fin d, Some (i, j)) =>
      ∃ c a, first_closest colors cands i j c a ∧ d = distance c a
  | _ => False
  end.
Proof.
  pose proof (best_upto_scan colors cands) as H.
  destruct (scan colors cands) as [[|d] [[i j]|]]; simpl in H; try done.
  - destruct colors as [|c colors]; [by left|].
    destruct cands as [|a cands]; [by right|].
    destruct (H 0%nat 0%nat c a); [|done..].
    unfold scan_lt; simpl; lia.
  - destruct H as (_ & c & a & Hc & Ha & -> & Hmin).
    exists c, a. split; [|done]. do 2 (split; [done|]).
    intros i' j' c' a' Hc' Ha'. apply Hmin; [|done..].
    apply lookup_lt_Some in Hc'. unfold scan_lt; simpl; lia.
Qed.

(** ** One turn of the matching loop *)

Lemma capitalize_Ok name s : capitalize name = Ok s → s = capitalized name.
Proof. destruct name; simpl; [done|]. by intros [= <-]. Qed.

Lemma capitalize_Raise name e :
  capitalize name = Raise e → e = IndexError ∧ name = EmptyString.
Proof. destruct name; simpl; [|done]. by intros [= <-]. Qed.

Lemma iteration_Break colors cands :
  iteration colors cands = Break ↔ colors = [] ∨ cands = [].
Proof.
  unfold iteration. pose proof (scan_spec colors cands) as H.
  destruct (scan colors cands) as [[|d] [[i j]|]]; try done.
  destruct H as (c & a & (Hc & Ha & _) & _). rewrite Ha, Hc.
  split.
  - destruct (capitalize (cand_name a)); done.
  - intros [-> | ->]; done.
Qed.

Lemma iteration_Commit colors cands m colors' cands' :
  iteration colors cands = Commit m colors' cands' →
  ∃ i j c a,
    first_closest colors cands i j c a ∧
    colors' = delete i colors ∧ cands' = delete j cands ∧
    m = result_of c a ∧
    cand_name a ≠ EmptyString.
Proof.
  unfold iteration. pose proof (scan_spec colors cands) as H.
  destruct (scan colors cands) as [[|d] [[i j]|]]; try done.
  destruct H as (c & a & Hfc & ->). pose proof Hfc as (Hc & Ha & _).
  rewrite Ha, Hc.
  destruct (capitalize (cand_name a)) as [s|] eqn:Hcap; [|done].
  intros [= <- <- <-]. exists i, j, c, a.
  rewrite (capitalize_Ok _ _ Hcap). do 4 (split; [done|]).
  intros Hempty. by rewrite Hempty in Hcap.
Qed.

Lemma iteration_Raises colors cands e :
  iteration colors cands = Raises e →
  e = IndexError ∧
  ∃ i j c a, first_closest colors cands i j c a ∧ cand_name a = EmptyString.
Proof.
  unfold iteration. pose proof (scan_spec colors cands) as H.
  destruct (scan colors cands) as [[|d] [[i j]|]]; try done.
  destruct H as (c & a & Hfc & ->). pose proof Hfc as (Hc & Ha & _).
  rewrite Ha, Hc.
  destruct (capitalize (cand_name a)) as [s|e'] eqn:Hcap; [done|].
  intros [= <-]. apply capitalize_Raise in Hcap as [-> Hempty].
  split; [done|]. by exists i, j, c, a.
Qed.

Lemma iteration_Commit_length colors cands m colors' cands' :
  iteration colors cands = Commit m colors' cands' →
  length colors = S (length colors') ∧ length cands = S (length cands').
Proof.
  intros (i & j & c & a & (Hc & Ha & _) & -> & -> & _)%iteration_Commit.
  rewrite !length_delete by done.
  apply lookup_lt_Some in Hc, Ha. lia.
Qed.

(** ** The matching loop *)

Lemma match_loop_fuel fuel1 fuel2 colors cands acc :
  (length colors < fuel1)%nat → (length colors < fuel2)%nat →
  match_loop fuel1 colors cands acc = match_loop fuel2 colors cands acc.
Proof.
  revert fuel2 colors cands acc.
  induction fuel1 as [|fuel1 IH]; intros [|fuel2] colors cands acc H1 H2; try lia.
  simpl. destruct (iteration colors cands) as [| |m colors' cands'] eqn:Hit; try done.
  apply iteration_Commit_length in Hit as [Hlen _].
  apply IH; lia.
Qed.

Lemma match_loop_exit fuel colors cands acc :
  (length colors < fuel)%nat →
  (match_loop fuel colors cands acc).2 = Finished ∨
  (match_loop fuel colors cands acc).2 = Raised IndexError.
Proof.
  revert colors cands acc.
  induction fuel as [|fuel IH]; intros colors cands acc Hlen; [lia|].
  simpl. destruct (iteration colors cands) as [|e|m colors' cands'] eqn:Hit.
  - by left.
  - right. by apply iteration_Raises in Hit as [-> _].
  - apply iteration_Commit_length in Hit as [Hlen' _]. apply IH. lia.
Qed.

(** The results of the loop are appended to what [new_colors_names] held. *)
Lemma match_loop_acc fuel colors cands acc :
  match_loop fuel colors cands acc =
  (acc ++ (match_loop fuel colors cands []).1, (match_loop fuel colors cands []).2).
Proof.
  revert colors cands acc. induction fuel as [|fuel IH]; intros colors cands acc; simpl.
  - by rewrite app_nil_r.
  - destruct (iteration colors cands) as [|e|m colors' cands']; simpl;
      try by rewrite app_nil_r.
    rewrite (IH _ _ (acc ++ [m])), (IH _ _ [m]). simpl.
    by rewrite <- app_assoc.
Qed.

Lemma match_loop_Commit fuel colors cands m colors' cands' :
  iteration colors cands = Commit m colors' cands' →
  (match_loop (S fuel) colors cands []).1 = m :: (match_loop fuel colors' cands' []).1.
Proof. intros Hit. simpl. rewrite Hit. by rewrite match_loop_acc. Qed.

Lemma match_loop_stop fuel colors cands :
  (∀ m colors' cands', iteration colors cands ≠ Commit m colors' cands') →
  (match_loop (S fuel) colors cands []).1 = [].
Proof.
  intros Hno. simpl.
  destruct (iteration colors cands) as [|e|m colors' cands'] eqn:Hit; try done.
  by destruct (Hno m colors' cands').
Qed.

(** The recorded distances are distances of pairs of the two lists, and they
    come in ascending order. *)
Lemma match_loop_distances fuel colors cands :
  ∃ ds : list Z,
    res_dist <$> (match_loop fuel colors cands []).1 = Fin <$> ds ∧
    StronglySorted Z.le ds ∧
    ∀ d, d ∈ ds → ∃ c a, c ∈ colors ∧ a ∈ cands ∧ d = distance c a.
Proof.
  revert colors cands. induction fuel as [|fuel IH]; intros colors cands.
  { exists []. split; [done|]. split; [constructor|]. by intros d ?%elem_of_nil. }
  destruct (iteration colors cands) as [|e|m colors' cands'] eqn:Hit.
  1,2: rewrite match_loop_stop by (by rewrite Hit);
       exists []; split; [done|]; split; [constructor|]; by intros d ?%elem_of_nil.
  rewrite (match_loop_Commit _ _ _ _ _ _ Hit).
  apply iteration_Commit in Hit as (i & j & c & a & (Hc & Ha & Hmin) & -> & -> & -> & _).
  destruct (IH (delete i colors) (delete j cands)) as (ds & Hds & Hsorted & Hpairs).
  exists (distance c a :: ds). split; [by rewrite !fmap_cons, Hds|]. split.
  - constructor; [done|]. apply Forall_forall. intros d Hd.
    destruct (Hpairs d Hd) as (c' & a' & Hc' & Ha' & ->).
    apply list_elem_of_delete_inv, list_elem_of_lookup in Hc' as [i' Hc'].
    apply list_elem_of_delete_inv, list_elem_of_lookup in Ha' as [j' Ha'].
    by apply (Hmin i' j').
  - intros d [->|Hd]%elem_of_cons.
    + exists c, a. split; [by eapply list_elem_of_lookup_2|].
      split; [by eapply list_elem_of_lookup_2|done].
    + destruct (Hpairs d Hd) as (c' & a' & Hc' & Ha' & ->).
      exists c', a'. eauto using list_elem_of_delete_inv.
Qed.

(** The results are those of pairs of palette entries and candidates of the
    two lists, each position used at most once. *)
Lemma match_loop_picks fuel colors cands :
  ∃ picks : list (palette_color * candidate),
    (match_loop fuel colors cands []).1 = (λ p, result_of p.1 p.2) <$> picks ∧
    picks.*1 ⊆+ colors ∧ picks.*2 ⊆+ cands.
Proof.
  revert colors cands. induction fuel as [|fuel IH]; intros colors cands.
  { exists []. split; [done|]. split; apply submseteq_nil_l. }
  destruct (iteration colors cands) as [|e|m colors' cands'] eqn:Hit.
  1,2: rewrite match_loop_stop by (by rewrite Hit);
       exists []; split; [done|]; split; apply submseteq_nil_l.
  rewrite (match_loop_Commit _ _ _ _ _ _ Hit).
  apply iteration_Commit in Hit as (i & j & c & a & (Hc & Ha & _) & -> & -> & -> & _).
  destruct (IH (delete i colors) (delete j cands)) as (picks & Hres & Hcols & Hcands).
  exists ((c, a) :: picks). rewrite !fmap_cons. simpl. split; [by rewrite Hres|]. split.
  - trans (c :: delete i colors); [by apply submseteq_skip|].
    apply Permutation_submseteq. symmetry. by apply delete_Permutation.
  - trans (a :: delete j cands); [by apply submseteq_skip|].
    apply Permutation_submseteq. symmetry. by apply delete_Permutation.
Qed.

Lemma NoDup_submseteq_inv {A} (l k : list A) : l ⊆+ k → NoDup k → NoDup l.
Proof.
  intros [k' Hk]%submseteq_Permutation. rewrite Hk.
  by intros [? _]%NoDup_app.
Qed.

(** * The claims *)

(** ** The Name Normalizer *)

(** C1 (the code departs from the claim): two catalog rows with the same RGB
    triple [1 2 3] and different names are both retained, because nothing is
    ever added to [all_colors_rgbs]; the candidate list then holds two
    candidates with the same [rgb]. *)
Theorem same_rgb_rows_both_retained :
  normalizer (read_color_names
    (catalog_text [catalog_row "1 2 3" "0" "foo"; catalog_row "1 2 3" "1" "bar"]))
  = Ok [((1, 2, 3), "foo", false); ((1, 2, 3), "bar", false)].
Proof. vm_compute. reflexivity. Qed.

(** A row that raises aborts the whole normalization. *)
Lemma normalize_rows_app st pre rows :
  normalize_rows st (pre ++ rows) = (normalize_rows st pre ≫= λ st', normalize_rows st' rows).
Proof.
  revert st. induction pre as [|row pre IH]; intros st; simpl; [done|].
  destruct (normalize_row st row) as [st1|]; simpl; [apply IH|done].
Qed.

Lemma normalize_rows_at pre st row post :
  normalize_rows norm_init pre = Ok st →
  normalize_rows norm_init (pre ++ row :: post)
  = (normalize_row st row ≫= λ st', normalize_rows st' post).
Proof. intros Hpre. by rewrite normalize_rows_app, Hpre. Qed.

(** C3 as the spec states it fails: the row ["a b c", "0", "X11Gray"] has
    three tokens that are not integers, and yet the run goes on and matches
    the next row. *)
Lemma malformed_row_skipped :
  is_rgb_triple "a b c" = false ∧
  main (reserved16 ++ [PaletteColor 99 (10, 10, 10)])
       (catalog_text [catalog_row "a b c" "0" "X11Gray";
                      catalog_row "12 12 12" "0" "nearblack"])
  = ([result_of (PaletteColor 99 (10, 10, 10)) ((12, 12, 12), "nearblack", false)],
     Finished).
Proof. split; vm_compute; reflexivity. Qed.

(** C3 (amended): a row whose [rgb_string] is not three whitespace-separated
    integers aborts the normalization with a ValueError when it does not
    split into exactly three tokens, or when it gets past every filter of
    lines 19-41; a row with three tokens that a filter rejects is skipped
    and the rows after it are processed from the unchanged state. *)
Theorem malformed_row_aborts_unless_filtered pre st rgb_string field name post :
  normalize_rows norm_init pre = Ok st →
  is_rgb_triple rgb_string = false →
  match Py.split_ws rgb_string with
  | [r; g; b] =>
      if passes_filters st r g b name
      then normalizer (pre ++ [rgb_string; field; name] :: post) = Raise ValueError
      else normalize_rows norm_init (pre ++ [rgb_string; field; name] :: post)
           = normalize_rows st post
  | _ => normalizer (pre ++ [rgb_string; field; name] :: post) = Raise ValueError
  end.
Proof.
  intros Hpre Hbad. unfold normalizer.
  rewrite (normalize_rows_at _ _ _ _ Hpre), normalize_row_eq.
  unfold is_rgb_triple in Hbad.
  destruct (Py.split_ws rgb_string) as [|r [|g [|b [|? ?]]]]; try done.
  destruct (passes_filters st r g b name); [|done].
  destruct (int3 r g b) as [rgb|]; [|done].
  by rewrite bool_decide_eq_false in Hbad; destruct Hbad.
Qed.

Lemma malformed_row_aborts_unless_filtered_witness :
  normalizer ([] ++ ["a b c"; "0"; "abc"] :: []) = Raise ValueError.
Proof.
  exact (malformed_row_aborts_unless_filtered [] norm_init "a b c" "0" "abc" []
           eq_refl eq_refl).
Defined.

(** C7 as the spec states it fails: a form feed is whitespace, and the row
    whose name holds one is accepted. *)
Lemma form_feed_name_accepted :
  Py.isspace "012" = true ∧
  normalizer (read_color_names
    (catalog_row "1 2 3" "0" ("sea" +:+ String "012" "green")))
  = Ok [((1, 2, 3), "sea" +:+ String "012" "green", false)].
Proof. split; vm_compute; reflexivity. Qed.

(** C7 (amended): a row whose [raw_name] contains a space character is
    rejected: the normalizer's state, and so the candidate list, is left as
    it was (when the row's [rgb_string] has its three tokens). *)
Theorem space_in_name_rejected st rgb_string field name :
  Py.contains_char " " name = true →
  normalize_row st [rgb_string; field; name] =
  match Py.split_ws rgb_string with
  | [_; _; _] => Ok st
  | _ => Raise ValueError
  end.
Proof.
  intros Hsp. rewrite normalize_row_eq.
  destruct (Py.split_ws rgb_string) as [|r [|g [|b [|? ?]]]]; try done.
  unfold passes_filters. rewrite Hsp. simpl.
  by rewrite andb_false_r.
Qed.

Lemma space_in_name_rejected_witness :
  normalize_row norm_init ["190 190 190"; "0"; "X11 Gray"] = Ok norm_init.
Proof.
  exact (space_in_name_rejected norm_init "190 190 190" "0" "X11 Gray" eq_refl).
Defined.

(** C8: the candidate list that the normalizer returns holds the accepted
    candidates without a digit in their name, in the order of acceptance,
    and after them those with a digit, in the order of acceptance. *)
Theorem normalizer_digitless_first rows st :
  normalize_rows norm_init rows = Ok st →
  normalizer rows
  = Ok (filter (λ a, cand_has_num a = false) (all_colors st)
        ++ filter (λ a, cand_has_num a = true) (all_colors st)).
Proof.
  intros Hrows. unfold normalizer. rewrite Hrows. simpl.
  by rewrite sort_by_bool.
Qed.

Lemma normalizer_digitless_first_witness :
  normalizer [["1 1 1"; "0"; "gray1"]; ["2 2 2"; "1"; "tan"];
              ["3 3 3"; "2"; "gray2"]; ["4 4 4"; "3"; "sienna"]]
  = Ok [((2, 2, 2), "tan", false); ((4, 4, 4), "sienna", false);
        ((1, 1, 1), "gray1", true); ((3, 3, 3), "gray2", true)].
Proof.
  exact (normalizer_digitless_first
           [["1 1 1"; "0"; "gray1"]; ["2 2 2"; "1"; "tan"];
            ["3 3 3"; "2"; "gray2"]; ["4 4 4"; "3"; "sienna"]]
           (accept (accept (accept (accept norm_init
              (1, 1, 1) "gray1") (2, 2, 2) "tan") (3, 3, 3) "gray2") (4, 4, 4) "sienna")
           eq_refl).
Defined.

(** C10 (the code departs from the claim): a row with an empty name gets past
    every filter, so the candidate list holds a candidate with the empty
    name, and the capitalization of line 92 raises an IndexError when that
    candidate is matched. *)
Theorem empty_name_accepted_then_raises :
  normalizer (read_color_names (catalog_row "12 12 12" "0" ""))
  = Ok [((12, 12, 12), "", false)] ∧
  main (reserved16 ++ [PaletteColor 99 (10, 10, 10)]) (catalog_row "12 12 12" "0" "")
  = ([], Raised IndexError).
Proof. split; vm_compute; reflexivity. Qed.

(** ** The Greedy Matcher *)

(** The best pair is replaced only on a strictly smaller distance. *)
Lemma consider_replaces i j dist best_dist best_index :
  consider i j dist (Fin best_dist, best_index)
  = if decide (dist < best_dist) then (Fin dist, Some (i, j))
    else (Fin best_dist, best_index).
Proof.
  unfold consider. simpl.
  destruct (Z.ltb_spec dist best_dist); case_decide; done || lia.
Qed.

(** C4: the pair [(i, j)] that a scan ends with has the least distance of
    all pairs, and every pair [(i', j')] with that same distance comes at or
    after it in scan order: a later palette entry ([i < i']), or the same
    entry and the same or a later candidate. *)
Theorem scan_first_minimum_wins colors cands best_dist i j :
  scan colors cands = (best_dist, Some (i, j)) →
  ∃ c a,
    colors !! i = Some c ∧ cands !! j = Some a ∧
    best_dist = Fin (distance c a) ∧
    ∀ i' j' c' a', colors !! i' = Some c' → cands !! j' = Some a' →
      distance c a ≤ distance c' a' ∧
      (distance c' a' = distance c a → (i < i' ∨ (i = i' ∧ j ≤ j'))%nat).
Proof.
  intros Hscan. pose proof (scan_spec colors cands) as H. rewrite Hscan in H.
  destruct best_dist as [|d]; [done|].
  destruct H as (c & a & (Hc & Ha & Hmin) & ->).
  exists c, a. do 3 (split; [done|]). exact Hmin.
Qed.

Lemma scan_first_minimum_wins_witness :
  ∃ c a,
    [PaletteColor 20 (0, 0, 0); PaletteColor 21 (2, 0, 0)] !! 0%nat = Some c ∧
    [((1, 0, 0), "umber", false); ((1, 0, 0), "ochre", false)] !! 0%nat = Some a ∧
    Fin 1 = Fin (distance c a) ∧
    ∀ i' j' c' a',
      [PaletteColor 20 (0, 0, 0); PaletteColor 21 (2, 0, 0)] !! i' = Some c' →
      [((1, 0, 0), "umber", false); ((1, 0, 0), "ochre", false)] !! j' = Some a' →
      distance c a ≤ distance c' a' ∧
      (distance c' a' = distance c a → (0 < i' ∨ (0 = i' ∧ 0 ≤ j'))%nat).
Proof.
  exact (scan_first_minimum_wins
           [PaletteColor 20 (0, 0, 0); PaletteColor 21 (2, 0, 0)]
           [((1, 0, 0), "umber", false); ((1, 0, 0), "ochre", false)]
           (Fin 1) 0 0 eq_refl).
Defined.

(** C5: the distances recorded by the matcher, in the order in which the
    results are produced, are integers in ascending order: each one is at
    least the one before it. *)
Theorem matcher_distances_ascending colors cands :
  ∃ ds : list Z,
    res_dist <$> (matcher colors cands).1 = Fin <$> ds ∧ Sorted Z.le ds.
Proof.
  unfold matcher.
  destruct (match_loop_distances (S (length colors)) colors cands)
    as (ds & Hds & Hsorted & _).
  exists ds. split; [done|]. by apply StronglySorted_Sorted.
Qed.

(** The matching loop ends, within one turn more than there are palette
    entries, by its [break] or by an exception; a turn that commits a match
    removes exactly one element from each of the two lists; and the [break]
    is taken exactly when one of the lists is empty. *)
Lemma matcher_terminates colors cands :
  ((matcher colors cands).2 = Finished ∨ (matcher colors cands).2 = Raised IndexError) ∧
  (∀ fuel, (length colors < fuel)%nat →
     match_loop fuel colors cands [] = matcher colors cands) ∧
  (∀ m colors' cands', iteration colors cands = Commit m colors' cands' →
     length colors = S (length colors') ∧ length cands = S (length cands')) ∧
  (iteration colors cands = Break ↔ colors = [] ∨ cands = []).
Proof.
  split; [|split; [|split]].
  - apply match_loop_exit. lia.
  - intros fuel Hfuel. apply match_loop_fuel; lia.
  - apply iteration_Commit_length.
  - apply iteration_Break.
Qed.

(** C9 (the code departs from the claim): with the palette entries 20 and 21
    and the candidates ["jet"] and [""], the first turn commits (20, "jet")
    and shortens both lists by one; in the second turn a pair is left, the
    [break] is not taken, and the loop is left by the IndexError of line 92:
    it exits while neither list is empty. *)
Theorem loop_left_with_a_pair_remaining :
  iteration [PaletteColor 20 (0, 0, 0); PaletteColor 21 (10, 10, 10)]
            [((0, 0, 0), "jet", false); ((50, 50, 50), "", false)]
  = Commit (result_of (PaletteColor 20 (0, 0, 0)) ((0, 0, 0), "jet", false))
           [PaletteColor 21 (10, 10, 10)] [((50, 50, 50), "", false)] ∧
  iteration [PaletteColor 21 (10, 10, 10)] [((50, 50, 50), "", false)]
  = Raises IndexError ∧
  matcher [PaletteColor 20 (0, 0, 0); PaletteColor 21 (10, 10, 10)]
          [((0, 0, 0), "jet", false); ((50, 50, 50), "", false)]
  = ([result_of (PaletteColor 20 (0, 0, 0)) ((0, 0, 0), "jet", false)],
     Raised IndexError).
Proof. repeat split; vm_compute; reflexivity. Qed.

(** ** The whole run *)

Lemma main_picks palette text :
  ∃ picks : list (palette_color * candidate),
    (main palette text).1 = (λ p, result_of p.1 p.2) <$> picks ∧
    picks.*1 ⊆+ drop 16 palette ∧
    ∀ cands, normalizer (read_color_names text) = Ok cands → picks.*2 ⊆+ cands.
Proof.
  unfold main. destruct (normalizer (read_color_names text)) as [cands|e].
  2: { exists []. split; [done|]. split; [apply submseteq_nil_l|done]. }
  unfold matcher.
  destruct (match_loop_picks (S (length (drop 16 palette))) (drop 16 palette) cands)
    as (picks & Hres & Hcols & Hcands).
  destruct (match_loop _ _ _ _) as [res ex]. simpl in Hres. subst res.
  assert (Hsame : ∃ picks' : list (palette_color * candidate),
            (λ p, result_of p.1 p.2) <$> picks = (λ p, result_of p.1 p.2) <$> picks' ∧
            picks'.*1 ⊆+ drop 16 palette ∧
            ∀ cands', Ok cands = Ok cands' → picks'.*2 ⊆+ cands').
  { exists picks. split; [done|]. split; [done|]. by intros ? [= <-]. }
  destruct ex; try exact Hsame. simpl.
  rewrite sort_by_fmap.
  set (picks' := sort_by Z.leb _ picks).
  assert (Hperm : picks' ≡ₚ picks) by apply sort_by_perm.
  exists picks'. split; [done|]. split.
  - by rewrite Hperm.
  - intros ? [= <-]. by rewrite Hperm.
Qed.

(** C2 as the spec states it fails: the candidate names ["sage"] and ["Sage"]
    are different, and both are assigned as ["Sage"]. *)
Lemma assigned_name_twice :
  NoDup (colorId <$> (reserved16 ++ [PaletteColor 16 (0, 0, 0); PaletteColor 17 (9, 9, 9)])) ∧
  assigned_name <$>
    (main (reserved16 ++ [PaletteColor 16 (0, 0, 0); PaletteColor 17 (9, 9, 9)])
          (catalog_text [catalog_row "1 1 1" "0" "sage";
                         catalog_row "8 8 8" "1" "Sage"])).1
  = ["Sage"; "Sage"].
Proof.
  split; [|vm_compute; reflexivity].
  apply (bool_decide_unpack _). vm_compute. exact I.
Qed.

(** C2 (amended): when the palette entries after the first sixteen have
    pairwise different ids, no [palette_id] occurs in two Match Results of a
    run, and no candidate is used by two results: the assigned names are the
    capitalizations of pairwise different names of candidates that the
    normalizer returned. *)
Theorem results_unique palette text :
  NoDup (colorId <$> drop 16 palette) →
  NoDup (palette_id <$> (main palette text).1) ∧
  ∃ chosen : list candidate,
    assigned_name <$> (main palette text).1 = (capitalized ∘ cand_name) <$> chosen ∧
    NoDup (cand_name <$> chosen) ∧
    ∀ cands, normalizer (read_color_names text) = Ok cands → chosen ⊆+ cands.
Proof.
  intros Hids. destruct (main_picks palette text) as (picks & Hres & Hcols & Hcands).
  assert (Hids' : palette_id <$> (main palette text).1 = colorId <$> picks.*1).
  { rewrite Hres, <- !list_fmap_compose. reflexivity. }
  assert (Hnames : assigned_name <$> (main palette text).1
                   = (capitalized ∘ cand_name) <$> picks.*2).
  { rewrite Hres, <- !list_fmap_compose. reflexivity. }
  split.
  - rewrite Hids'.
    apply (NoDup_submseteq_inv _ (colorId <$> drop 16 palette)); [|done].
    by apply fmap_submseteq.
  - exists (picks.*2). split; [done|]. split; [|done].
    destruct (normalizer (read_color_names text)) as [cands|e] eqn:Hnorm.
    + apply (NoDup_submseteq_inv _ (cand_name <$> cands)).
      * by apply fmap_submseteq, Hcands.
      * by apply normalizer_names_NoDup in Hnorm.
    + revert Hres. unfold main. rewrite Hnorm. simpl.
      destruct picks; [constructor|done].
Qed.

Lemma results_unique_witness :
  NoDup (palette_id <$>
    (main (reserved16 ++ [PaletteColor 16 (0, 0, 0); PaletteColor 17 (9, 9, 9)])
          (catalog_text [catalog_row "1 1 1" "0" "sage";
                         catalog_row "8 8 8" "1" "Sage"])).1) ∧
  ∃ chosen : list candidate,
    assigned_name <$>
      (main (reserved16 ++ [PaletteColor 16 (0, 0, 0); PaletteColor 17 (9, 9, 9)])
            (catalog_text [catalog_row "1 1 1" "0" "sage";
                           catalog_row "8 8 8" "1" "Sage"])).1
    = (capitalized ∘ cand_name) <$> chosen ∧
    NoDup (cand_name <$> chosen) ∧
    ∀ cands,
      normalizer (read_color_names
        (catalog_text [catalog_row "1 1 1" "0" "sage";
                       catalog_row "8 8 8" "1" "Sage"])) = Ok cands →
      chosen ⊆+ cands.
Proof.
  apply (results_unique
           (reserved16 ++ [PaletteColor 16 (0, 0, 0); PaletteColor 17 (9, 9, 9)])).
  apply (bool_decide_unpack _). vm_compute. exact I.
Defined.

(** C6: for a palette of seventeen entries whose last one has id 99 and
    color (10, 10, 10), and the catalog of the single row
    ["12 12 12\t0\tnearblack"], the run finishes with exactly one Match
    Result: palette id 99, assigned name ["Nearblack"], distance 12. *)
Theorem end_to_end_nearblack reserved :
  length reserved = 16%nat →
  ∃ m, main (reserved ++ [PaletteColor 99 (10, 10, 10)])
            (catalog_row "12 12 12" "0" "nearblack")
       = ([m], Finished) ∧
       palette_id m = 99 ∧ assigned_name m = "Nearblack" ∧ res_dist m = Fin 12.
Proof.
  intros Hlen.
  exists (result_of (PaletteColor 99 (10, 10, 10)) ((12, 12, 12), "nearblack", false)).
  split; [|by vm_compute].
  unfold main.
  replace (normalizer (read_color_names (catalog_row "12 12 12" "0" "nearblack")))
    with (Ok [((12, 12, 12), "nearblack", false)] : except (list candidate))
    by (vm_compute; reflexivity).
  rewrite drop_app_length' by done.
  vm_compute. reflexivity.
Qed.

Lemma end_to_end_nearblack_witness :
  ∃ m, main (reserved16 ++ [PaletteColor 99 (10, 10, 10)])
            (catalog_row "12 12 12" "0" "nearblack")
       = ([m], Finished) ∧
       palette_id m = 99 ∧ assigned_name m = "Nearblack" ∧ res_dist m = Fin 12.
Proof. exact (end_to_end_nearblack reserved16 eq_refl). Defined.

(** * Further properties *)

(** ** [name.replace("Grey", "Gray")] *)

Lemma replace_from_S fuel old new c s :
  Py.replace_from (S fuel) old new (String c s)
  = if String.prefix old (String c s)
    then new +:+ Py.replace_from fuel old new (Py.drop_chars (String.length old) (String c s))
    else String c (Py.replace_from fuel old new s).
Proof. reflexivity. Qed.

Lemma prefix_split p s :
  String.prefix p s = true → s = p +:+ Py.drop_chars (String.length p) s.
Proof.
  revert s. induction p as [|a p IH]; intros s; [done|].
  destruct s as [|b s]; simpl; [done|].
  destruct (ascii_dec a b) as [->|]; [|done].
  intros Hp. change (String b s = String b (p +:+ Py.drop_chars (String.length p) s)).
  f_equal. by apply IH.
Qed.

Lemma drop_chars_length n s :
  (String.length (Py.drop_chars n s) ≤ String.length s)%nat.
Proof.
  revert s. induction n as [|n IH]; intros s; simpl; [lia|].
  destruct s as [|c s]; simpl; [lia|]. specialize (IH s). lia.
Qed.

Lemma same_or_a_refl s : same_or_a s s.
Proof. induction s; constructor; auto. Qed.

(** The replacement only turns the ["e"] of each ["Grey"] into an ["a"]. *)
Lemma replace_Grey_same_or_a fuel s :
  same_or_a s (Py.replace_from fuel "Grey" "Gray" s).
Proof.
  revert s. induction fuel as [|fuel IH]; intros s; [apply same_or_a_refl|].
  destruct s as [|c s]; [constructor|].
  rewrite replace_from_S.
  destruct (String.prefix "Grey" (String c s)) eqn:Hp.
  - pose proof (prefix_split _ _ Hp) as Hs.
    set (rest := Py.drop_chars (String.length "Grey") (String c s)) in *.
    rewrite Hs. simpl.
    repeat (constructor; [auto|]). apply IH.
  - constructor; [auto|apply IH].
Qed.

Lemma same_or_a_any p s t :
  same_or_a s t → p "a"%char = false → Py.any p t = true → Py.any p s = true.
Proof.
  intros Hst Hp. unfold Py.any, Py.chars.
  induction Hst as [|c c' s t Hc _ IH]; simpl; [done|].
  intros [Hc'|Ht]%orb_true_iff.
  - destruct Hc as [->| ->]; [by rewrite Hc'|congruence].
  - rewrite (IH Ht). apply orb_true_r.
Qed.

Lemma same_or_a_prefix p s t :
  same_or_a s t → Py.any (Ascii.eqb "a") p = false →
  String.prefix p t = true → String.prefix p s = true.
Proof.
  intros Hst. revert p. unfold Py.any, Py.chars.
  induction Hst as [|c c' s t Hc _ IH]; intros p Hp; [done|].
  destruct p as [|a p]; simpl in *; [done|].
  apply orb_false_iff in Hp as [Ha Hp].
  destruct (ascii_dec a c') as [<-|]; [|done].
  destruct Hc as [<-|Hc].
  - destruct (ascii_dec a a); [|done]. by apply IH.
  - rewrite Hc in Ha. discriminate Ha.
Qed.

Lemma same_or_a_empty s : same_or_a s EmptyString → s = EmptyString.
Proof. by inversion 1. Qed.

(** No ["Grey"] is left. *)
Lemma replace_Grey_gone fuel s :
  (String.length s < fuel)%nat →
  occurs "Grey" (Py.replace_from fuel "Grey" "Gray" s) = false.
Proof.
  revert s. induction fuel as [|fuel IH]; intros s Hlen; [lia|].
  destruct s as [|c s]; [done|].
  rewrite replace_from_S.
  destruct (String.prefix "Grey" (String c s)) eqn:Hp.
  - pose proof (prefix_split _ _ Hp) as Hs.
    remember (Py.drop_chars (String.length "Grey") (String c s)) as rest eqn:Erest.
    clear Erest.
    assert (Hrest : (String.length rest < fuel)%nat).
    { apply (f_equal String.length) in Hs.
      change (String.length ("Grey" +:+ rest)) with (4 + String.length rest)%nat in Hs.
      simpl in Hs, Hlen. lia. }
    specialize (IH rest Hrest).
    change ("Gray" +:+ Py.replace_from fuel "Grey" "Gray" rest)
      with (String "G" (String "r" (String "a" (String "y"
              (Py.replace_from fuel "Grey" "Gray" rest))))).
    destruct (Py.replace_from fuel "Grey" "Gray" rest) as [|d t] eqn:Hres.
    + reflexivity.
    + simpl. simpl in IH. by rewrite IH.
  - simpl in Hlen. specialize (IH s ltac:(lia)).
    change (occurs "Grey" (String c (Py.replace_from fuel "Grey" "Gray" s)))
      with (String.prefix "Grey" (String c (Py.replace_from fuel "Grey" "Gray" s))
            || occurs "Grey" (Py.replace_from fuel "Grey" "Gray" s)).
    rewrite IH, orb_false_r.
    destruct (String.prefix "Grey" (String c (Py.replace_from fuel "Grey" "Gray" s))) eqn:Hq;
      [|done].
    rewrite <- Hp. symmetry.
    apply (same_or_a_prefix "Grey" (String c s)
             (String c (Py.replace_from fuel "Grey" "Gray" s))); [|done|done].
    constructor; [auto|apply replace_Grey_same_or_a].
Qed.

(** ** Rows and fields *)

(** The fields of a split hold characters of the text and no separator. *)
Lemma split_on_fields sep s w :
  w ∈ Py.split_on sep s →
  Py.contains_char sep w = false ∧
  ∀ p, Py.any p w = true → Py.any p s = true.
Proof.
  unfold Py.contains_char, Py.any, Py.chars.
  revert w. induction s as [|c s IH]; intros w; simpl.
  - intros ->%list_elem_of_singleton. done.
  - destruct (Ascii.eqb c sep) eqn:Hc.
    + intros [->|Hw]%elem_of_cons; [done|].
      destruct (IH w Hw) as [Hsep Hsub]. split; [done|].
      intros p Hp. rewrite (Hsub p Hp). apply orb_true_r.
    + destruct (Py.split_on sep s) as [|v vs] eqn:Hsplit.
      * intros ->%list_elem_of_singleton. simpl.
        rewrite Ascii.eqb_sym, Hc. split; [done|].
        intros p. rewrite orb_false_r. intros ->. done.
      * intros [->|Hw]%elem_of_cons.
        -- destruct (IH v) as [Hsep Hsub]; [apply elem_of_cons; by left|].
           simpl. rewrite Ascii.eqb_sym, Hc, Hsep. split; [done|].
           intros p [->|Hp]%orb_true_iff; [done|].
           rewrite (Hsub p Hp). apply orb_true_r.
        -- destruct (IH w) as [Hsep Hsub]; [apply elem_of_cons; by right|].
           split; [done|]. intros p Hp. rewrite (Hsub p Hp). apply orb_true_r.
Qed.

Lemma split_on_nonempty sep s : Py.split_on sep s ≠ [].
Proof.
  destruct s as [|c s]; simpl; [done|].
  destruct (Ascii.eqb c sep); [done|]. by destruct (Py.split_on sep s).
Qed.

(** A text that ends with a newline has an empty last line. *)
Lemma split_on_trailing sep s :
  Py.split_on sep (s +:+ String sep EmptyString) = Py.split_on sep s ++ [EmptyString].
Proof.
  induction s as [|c s IH].
  - simpl. by rewrite Ascii.eqb_refl.
  - change (String c s +:+ String sep EmptyString)
      with (String c (s +:+ String sep EmptyString)).
    change (Py.split_on sep (String c (s +:+ String sep EmptyString)))
      with (if Ascii.eqb c sep
            then EmptyString :: Py.split_on sep (s +:+ String sep EmptyString)
            else match Py.split_on sep (s +:+ String sep EmptyString) with
                 | w :: ws => String c w :: ws
                 | [] => [String c EmptyString]
                 end).
    rewrite IH. simpl.
    destruct (Ascii.eqb c sep); [done|].
    pose proof (split_on_nonempty sep s). by destruct (Py.split_on sep s).
Qed.

(** A field of the catalog holds no tab and no newline. *)
Lemma read_color_names_fields text row w :
  row ∈ read_color_names text → w ∈ row →
  Py.contains_char "009" w = false ∧ Py.contains_char "010" w = false.
Proof.
  unfold read_color_names.
  intros (line & -> & Hline)%list_elem_of_fmap Hw.
  destruct (split_on_fields _ _ _ Hw) as [Htab Hsub].
  destruct (split_on_fields _ _ _ Hline) as [Hnl _].
  split; [done|].
  destruct (Py.contains_char "010" w) eqn:Hc; [|done].
  unfold Py.contains_char in *. by rewrite (Hsub _ Hc) in Hnl.
Qed.

(** ** What the normalizer accepts *)

Lemma normalize_row_inv st row st' :
  normalize_row st row = Ok st' →
  st' = st ∨
  ∃ rgb_string field raw r g b rgb,
    row = [rgb_string; field; raw] ∧
    Py.split_ws rgb_string = [r; g; b] ∧
    passes_filters st r g b raw = true ∧
    int3 r g b = Some rgb ∧
    st' = accept st rgb (Py.replace "Grey" "Gray" raw).
Proof.
  destruct row as [|rgb_string [|x [|name [|? ?]]]]; try done.
  rewrite normalize_row_eq.
  destruct (Py.split_ws rgb_string) as [|r [|g [|b [|? ?]]]] eqn:Hsplit; try done.
  destruct (passes_filters st r g b name) eqn:Hp; [|intros [= <-]; by left].
  destruct (int3 r g b) as [rgb|] eqn:Hint; [|done].
  intros [= <-]. right. by exists rgb_string, x, name, r, g, b, rgb.
Qed.

Lemma normalize_row_Raise st row e : normalize_row st row = Raise e → e = ValueError.
Proof.
  destruct row as [|rgb_string [|x [|name [|? ?]]]]; try by intros [= <-].
  rewrite normalize_row_eq.
  destruct (Py.split_ws rgb_string) as [|r [|g [|b [|? ?]]]]; try by intros [= <-].
  destruct (passes_filters st r g b name); [|done].
  destruct (int3 r g b); [done|]. by intros [= <-].
Qed.

Lemma normalize_rows_Raise st rows e : normalize_rows st rows = Raise e → e = ValueError.
Proof.
  revert st. induction rows as [|row rows IH]; intros st; simpl; [done|].
  destruct (normalize_row st row) as [st1|e1] eqn:Hrow; simpl.
  - apply IH.
  - intros [= <-]. by eapply normalize_row_Raise.
Qed.

Lemma normalize_rows_Raise_normalizer rows e : normalizer rows = Raise e → e = ValueError.
Proof.
  unfold normalizer.
  destruct (normalize_rows norm_init rows) as [st|e'] eqn:Hrows; simpl; [done|].
  intros [= <-]. by eapply normalize_rows_Raise.
Qed.

(** A property of every accepted candidate holds of the whole list. *)
Lemma normalize_rows_Forall (P : candidate → Prop) rows :
  (∀ st rgb_string field raw r g b rgb,
     [rgb_string; field; raw] ∈ rows →
     passes_filters st r g b raw = true →
     P (rgb, Py.replace "Grey" "Gray" raw,
        Py.any Py.isdigit (Py.replace "Grey" "Gray" raw))) →
  ∀ st st', Forall P (all_colors st) →
    normalize_rows st rows = Ok st' → Forall P (all_colors st').
Proof.
  induction rows as [|row rows IH]; intros HP st st' Hst; simpl.
  - by intros [= <-].
  - destruct (normalize_row st row) as [st1|] eqn:Hrow; [|done]. simpl.
    apply IH.
    + intros ? rs fd rw ? ? ? ? Hin. apply (HP _ rs fd). by apply elem_of_cons; right.
    + apply normalize_row_inv in Hrow
        as [->|(rs & fd & rw & r & g & b & rgb & -> & _ & Hp & _ & ->)]; [done|].
      simpl. apply Forall_app. split; [done|].
      apply Forall_singleton. apply (HP st rs fd rw r g b); [|done].
      by apply elem_of_cons; left.
Qed.

Lemma normalizer_Forall (P : candidate → Prop) rows cands :
  (∀ st rgb_string field raw r g b rgb,
     [rgb_string; field; raw] ∈ rows →
     passes_filters st r g b raw = true →
     P (rgb, Py.replace "Grey" "Gray" raw,
        Py.any Py.isdigit (Py.replace "Grey" "Gray" raw))) →
  normalizer rows = Ok cands → Forall P cands.
Proof.
  intros HP. unfold normalizer.
  destruct (normalize_rows norm_init rows) as [st|] eqn:Hrows; [|done]. simpl.
  intros [= <-]. rewrite sort_by_perm.
  by apply (normalize_rows_Forall P rows HP norm_init st).
Qed.

Lemma passes_filters_true st r g b raw :
  passes_filters st r g b raw = true →
  ((r, g, b) ∉ all_colors_rgbs st) ∧
  Py.contains_char " " raw = false ∧
  Py.startswith "X11" raw = false ∧
  Py.startswith "Web" raw = false ∧
  (Py.replace "Grey" "Gray" raw ∉ all_colors_names st) ∧
  (Py.lower (Py.replace "Grey" "Gray" raw) ∉ basic_colors).
Proof.
  unfold passes_filters. intros H.
  repeat (apply andb_prop in H as [H ?]).
  repeat match goal with
         | H : negb _ = true |- _ => apply negb_true_iff in H
         | H : bool_decide _ = false |- _ => apply bool_decide_eq_false in H
         end.
  done.
Qed.

(** ** Invariants of the candidate list *)

(** X1: no two candidates of the normalizer's list have the same name. *)
Theorem candidate_names_distinct rows cands :
  normalizer rows = Ok cands → NoDup (cand_name <$> cands).
Proof. apply normalizer_names_NoDup. Qed.

Lemma candidate_names_distinct_witness : NoDup (cand_name <$> sample_candidates).
Proof. exact (candidate_names_distinct sample_rows sample_candidates eq_refl). Defined.

(** X2: a row whose name, after the replacement of ["Grey"], is the name of a
    candidate accepted before it is skipped: the first row of a name wins.
    (Its [rgb_string] must still split into three tokens.) *)
Theorem later_same_name_skipped pre st rgb_string field raw post :
  normalize_rows norm_init pre = Ok st →
  Py.replace "Grey" "Gray" raw ∈ cand_name <$> all_colors st →
  normalize_rows norm_init (pre ++ [rgb_string; field; raw] :: post)
  = match Py.split_ws rgb_string with
    | [_; _; _] => normalize_rows st post
    | _ => Raise ValueError
    end.
Proof.
  intros Hpre (a & Hname & Ha)%list_elem_of_fmap.
  rewrite (normalize_rows_at _ _ _ _ Hpre), normalize_row_eq.
  destruct (Py.split_ws rgb_string) as [|r [|g [|b [|? ?]]]]; try done.
  assert (Hseen : Py.replace "Grey" "Gray" raw ∈ all_colors_names st).
  { rewrite Hname. by apply (names_inv_rows _ _ _ names_inv_init Hpre). }
  unfold passes_filters. rewrite (bool_decide_eq_true_2 _ Hseen). simpl.
  by rewrite andb_false_r.
Qed.

Lemma later_same_name_skipped_witness :
  normalize_rows norm_init ([["190 190 190"; "0"; "Grey"]] ++ ["1 2 3"; "1"; "Gray"] :: [])
  = normalize_rows (accept norm_init (190, 190, 190) "Gray") [].
Proof.
  refine (later_same_name_skipped [["190 190 190"; "0"; "Grey"]]
            (accept norm_init (190, 190, 190) "Gray") "1 2 3" "1" "Gray" [] eq_refl _).
  vm_compute. apply list_elem_of_here.
Defined.

Lemma any_is_blank s :
  Py.contains_char " " s = false → Py.contains_char "009" s = false →
  Py.contains_char "010" s = false → Py.any is_blank s = false.
Proof.
  unfold Py.contains_char, Py.any, Py.chars, is_blank.
  induction (list_ascii_of_string s) as [|c l IH]; cbn [existsb]; [done|].
  intros [H1 ?]%orb_false_iff [H2 ?]%orb_false_iff [H3 ?]%orb_false_iff.
  rewrite IH by done.
  rewrite (Ascii.eqb_sym c " "), (Ascii.eqb_sym c "009"), (Ascii.eqb_sym c "010").
  by rewrite H1, H2, H3.
Qed.

(** X3: no candidate name that the normalizer makes of the text of
    [colors.txt] holds a space, a tab or a newline. *)
Theorem candidate_names_without_blanks text cands :
  normalizer (read_color_names text) = Ok cands →
  Forall (λ a, Py.any is_blank (cand_name a) = false) cands.
Proof.
  apply normalizer_Forall.
  intros st rs fd raw r g b rgb Hrow (_ & Hsp & _)%passes_filters_true.
  destruct (read_color_names_fields text _ raw Hrow) as [Htab Hnl].
  { by do 2 (apply elem_of_cons; right); apply elem_of_cons; left. }
  change (Py.any is_blank (Py.replace "Grey" "Gray" raw) = false).
  destruct (Py.any is_blank (Py.replace "Grey" "Gray" raw)) eqn:Hany; [|done].
  apply (same_or_a_any is_blank raw) in Hany; [|apply replace_Grey_same_or_a|done].
  by rewrite any_is_blank in Hany.
Qed.

Lemma candidate_names_without_blanks_witness :
  Forall (λ a, Py.any is_blank (cand_name a) = false)
    [((46, 139, 87), "seagreen", false)].
Proof.
  exact (candidate_names_without_blanks
           (catalog_text [catalog_row "255 0 0" "0" "Web Red";
                          catalog_row "46 139 87" "1" "seagreen"])
           [((46, 139, 87), "seagreen", false)] eq_refl).
Defined.

(** X4: no candidate name starts with ["X11"] or with ["Web"]. *)
Theorem candidate_names_without_prefixes rows cands :
  normalizer rows = Ok cands →
  Forall (λ a, Py.startswith "X11" (cand_name a) = false ∧
               Py.startswith "Web" (cand_name a) = false) cands.
Proof.
  apply normalizer_Forall.
  intros st rs fd raw r g b rgb _ (_ & _ & HX & HW & _)%passes_filters_true.
  change (Py.startswith "X11" (Py.replace "Grey" "Gray" raw) = false ∧
          Py.startswith "Web" (Py.replace "Grey" "Gray" raw) = false).
  unfold Py.startswith in *. split.
  - destruct (String.prefix "X11" (Py.replace "Grey" "Gray" raw)) eqn:Hp; [|done].
    apply (same_or_a_prefix "X11" raw) in Hp; [|apply replace_Grey_same_or_a|done].
    by rewrite Hp in HX.
  - destruct (String.prefix "Web" (Py.replace "Grey" "Gray" raw)) eqn:Hp; [|done].
    apply (same_or_a_prefix "Web" raw) in Hp; [|apply replace_Grey_same_or_a|done].
    by rewrite Hp in HW.
Qed.

Lemma candidate_names_without_prefixes_witness :
  Forall (λ a, Py.startswith "X11" (cand_name a) = false ∧
               Py.startswith "Web" (cand_name a) = false) sample_candidates.
Proof. exact (candidate_names_without_prefixes sample_rows sample_candidates eq_refl). Defined.

(** X5: no candidate name is, in lower case, one of the eight basic color
    words. *)
Theorem candidate_names_not_basic rows cands :
  normalizer rows = Ok cands →
  Forall (λ a, Py.lower (cand_name a) ∉ basic_colors) cands.
Proof.
  apply normalizer_Forall.
  by intros st rs fd raw r g b rgb _ (_ & _ & _ & _ & _ & Hb)%passes_filters_true.
Qed.

Lemma candidate_names_not_basic_witness :
  Forall (λ a, Py.lower (cand_name a) ∉ basic_colors) sample_candidates.
Proof. exact (candidate_names_not_basic sample_rows sample_candidates eq_refl). Defined.

(** X6: no candidate name holds ["Grey"]. *)
Theorem candidate_names_without_Grey rows cands :
  normalizer rows = Ok cands →
  Forall (λ a, occurs "Grey" (cand_name a) = false) cands.
Proof.
  apply normalizer_Forall.
  intros st rs fd raw r g b rgb _ _.
  apply replace_Grey_gone. lia.
Qed.

Lemma candidate_names_without_Grey_witness :
  Forall (λ a, occurs "Grey" (cand_name a) = false) sample_candidates.
Proof. exact (candidate_names_without_Grey sample_rows sample_candidates eq_refl). Defined.

(** ** Rows that abort the run *)

Lemma normalize_rows_bad_row st rows :
  (∃ row, row ∈ rows ∧ length row ≠ 3%nat) →
  normalize_rows st rows = Raise ValueError.
Proof.
  revert st. induction rows as [|row rows IH]; intros st (bad & Hin & Hlen).
  { by apply elem_of_nil in Hin. }
  simpl. destruct (normalize_row st row) as [st1|e] eqn:Hrow; simpl.
  - apply IH. apply elem_of_cons in Hin as [Heq|Hin]; [|by exists bad].
    subst bad. by destruct row as [|? [|? [|? [|? ?]]]].
  - by rewrite (normalize_row_Raise _ _ _ Hrow).
Qed.

Lemma main_normalizer_Raise palette text e :
  normalizer (read_color_names text) = Raise e → main palette text = ([], Raised e).
Proof. intros H. unfold main. by rewrite H. Qed.

(** X8: a row that does not have exactly three tab-separated fields aborts
    the normalization with a ValueError, wherever it stands in the catalog. *)
Theorem wrong_field_count_aborts rows :
  (∃ row, row ∈ rows ∧ length row ≠ 3%nat) → normalizer rows = Raise ValueError.
Proof.
  intros Hbad. unfold normalizer. by rewrite normalize_rows_bad_row.
Qed.

Lemma wrong_field_count_aborts_witness :
  normalizer [["46 139 87"; "0"; "seagreen"]; ["46 139 87"; "seagreen"]]
  = Raise ValueError.
Proof.
  apply wrong_field_count_aborts.
  exists ["46 139 87"; "seagreen"]. split; [|simpl; lia].
  apply list_elem_of_further, list_elem_of_here.
Defined.

(** X9: a [colors.txt] that ends with a newline (or is empty) aborts the run
    with a ValueError and no result, whatever else it holds: its last line is
    empty and gives a row of one field. *)
Theorem trailing_newline_aborts palette text :
  main palette (text +:+ String "010" EmptyString) = ([], Raised ValueError) ∧
  main palette EmptyString = ([], Raised ValueError).
Proof.
  split; [|done].
  apply main_normalizer_Raise. unfold normalizer.
  rewrite normalize_rows_bad_row; [done|].
  exists [EmptyString]. split; [|simpl; lia].
  unfold read_color_names. rewrite split_on_trailing, fmap_app.
  apply elem_of_app. right. apply list_elem_of_here.
Qed.

(** ** The distance *)

(** X13: the distance of line 75 is never negative, and it is zero exactly
    when the candidate has the color of the palette entry. *)
Theorem distance_zero_iff_same_rgb c a :
  0 ≤ distance c a ∧ (distance c a = 0 ↔ cand_rgb a = rgb c).
Proof.
  unfold distance. destruct (rgb c) as [[cr cg] cb], (cand_rgb a) as [[r g] b].
  rewrite !Z.pow_2_r.
  pose proof (Z.square_nonneg (r - cr)) as Hr.
  pose proof (Z.square_nonneg (g - cg)) as Hg.
  pose proof (Z.square_nonneg (b - cb)) as Hb.
  split; [lia|]. split.
  - intros H.
    assert ((r - cr) * (r - cr) = 0) as [?|?]%Z.mul_eq_0 by lia;
    assert ((g - cg) * (g - cg) = 0) as [?|?]%Z.mul_eq_0 by lia;
    assert ((b - cb) * (b - cb) = 0) as [?|?]%Z.mul_eq_0 by lia;
    repeat f_equal; lia.
  - intros [= -> -> ->]. lia.
Qed.

(** ** The final sort *)

Lemma insert_by_Z_sorted {A} (key : A → Z) x l :
  Sorted (λ a b, key a ≤ key b) l →
  Sorted (λ a b, key a ≤ key b) (insert_by Z.leb key x l).
Proof.
  induction l as [|y l IH]; simpl; intros Hl.
  - by repeat constructor.
  - destruct (Z.leb_spec (key x) (key y)) as [Hle|Hgt].
    + constructor; [done|]. by constructor.
    + apply Sorted_inv in Hl as [Hl Hhd]. constructor; [by apply IH|].
      destruct l as [|z l]; simpl.
      * constructor. lia.
      * destruct (Z.leb_spec (key x) (key z)); constructor; [lia|].
        by apply HdRel_inv in Hhd.
Qed.

Lemma sort_by_Z_sorted {A} (key : A → Z) l :
  Sorted (λ a b, key a ≤ key b) (sort_by Z.leb key l).
Proof.
  induction l as [|x l IH]; [constructor|].
  change (sort_by Z.leb key (x :: l)) with (insert_by Z.leb key x (sort_by Z.leb key l)).
  by apply insert_by_Z_sorted.
Qed.

Lemma main_Finished palette text :
  (main palette text).2 = Finished →
  ∃ cands, normalizer (read_color_names text) = Ok cands ∧
    (matcher (drop 16 palette) cands).2 = Finished ∧
    (main palette text).1
    = sort_by Z.leb palette_id (matcher (drop 16 palette) cands).1.
Proof.
  unfold main. destruct (normalizer (read_color_names text)) as [cands|e]; [|done].
  destruct (matcher (drop 16 palette) cands) as [res ex] eqn:Hm.
  destruct ex; simpl; try done. intros _. exists cands. by rewrite Hm.
Qed.

(** X10: when the run finishes, its results are those of the matcher in
    another order: ascending in the palette id. *)
Theorem results_sorted_by_id palette text :
  (main palette text).2 = Finished →
  Sorted (λ m1 m2, palette_id m1 ≤ palette_id m2) (main palette text).1 ∧
  ∃ cands, normalizer (read_color_names text) = Ok cands ∧
    (main palette text).1 ≡ₚ (matcher (drop 16 palette) cands).1.
Proof.
  intros (cands & Hnorm & _ & ->)%main_Finished. split.
  - apply sort_by_Z_sorted.
  - exists cands. split; [done|]. apply sort_by_perm.
Qed.

Lemma results_sorted_by_id_witness :
  Sorted (λ m1 m2, palette_id m1 ≤ palette_id m2)
    (main (reserved16 ++ [PaletteColor 30 (9, 9, 9); PaletteColor 20 (0, 0, 0)])
          (catalog_text [catalog_row "1 1 1" "0" "onyx";
                         catalog_row "8 8 9" "1" "jet"])).1 ∧
  ∃ cands,
    normalizer (read_color_names
      (catalog_text [catalog_row "1 1 1" "0" "onyx";
                     catalog_row "8 8 9" "1" "jet"])) = Ok cands ∧
    (main (reserved16 ++ [PaletteColor 30 (9, 9, 9); PaletteColor 20 (0, 0, 0)])
          (catalog_text [catalog_row "1 1 1" "0" "onyx";
                         catalog_row "8 8 9" "1" "jet"])).1
    ≡ₚ (matcher (drop 16 (reserved16 ++ [PaletteColor 30 (9, 9, 9); PaletteColor 20 (0, 0, 0)]))
          cands).1.
Proof.
  apply (results_sorted_by_id
           (reserved16 ++ [PaletteColor 30 (9, 9, 9); PaletteColor 20 (0, 0, 0)])).
  vm_compute. reflexivity.
Defined.

(** ** How many results, and how the loop is left *)

Lemma match_loop_Commit_exit fuel colors cands m colors' cands' :
  iteration colors cands = Commit m colors' cands' →
  (match_loop (S fuel) colors cands []).2 = (match_loop fuel colors' cands' []).2.
Proof. intros Hit. simpl. rewrite Hit. by rewrite match_loop_acc. Qed.

Lemma match_loop_count fuel colors cands :
  (length colors < fuel)%nat →
  (match_loop fuel colors cands []).2 = Finished →
  length (match_loop fuel colors cands []).1 = (length colors `min` length cands)%nat.
Proof.
  revert colors cands. induction fuel as [|fuel IH]; intros colors cands Hlen; [lia|].
  destruct (iteration colors cands) as [|e|m colors' cands'] eqn:Hit.
  - intros _. rewrite match_loop_stop by (by rewrite Hit).
    apply iteration_Break in Hit as [-> | ->]; simpl; lia.
  - simpl. by rewrite Hit.
  - rewrite (match_loop_Commit_exit _ _ _ _ _ _ Hit), (match_loop_Commit _ _ _ _ _ _ Hit).
    apply iteration_Commit_length in Hit as [Hc Ha].
    intros Hex. simpl. rewrite IH by (done || lia). lia.
Qed.

Lemma match_loop_no_raise fuel colors cands :
  Forall (λ a, cand_name a ≠ EmptyString) cands →
  (length colors < fuel)%nat →
  (match_loop fuel colors cands []).2 = Finished.
Proof.
  revert colors cands. induction fuel as [|fuel IH]; intros colors cands Hne Hlen; [lia|].
  destruct (iteration colors cands) as [|e|m colors' cands'] eqn:Hit.
  - simpl. by rewrite Hit.
  - apply iteration_Raises in Hit as (_ & i & j & c & a & (_ & Ha & _) & Hempty).
    by destruct (Forall_lookup_1 _ _ _ _ Hne Ha).
  - rewrite (match_loop_Commit_exit _ _ _ _ _ _ Hit).
    pose proof (iteration_Commit_length _ _ _ _ _ Hit) as [Hc _].
    apply iteration_Commit in Hit as (i & j & c & a & _ & -> & -> & _).
    apply IH; [by apply Forall_delete|lia].
Qed.

Lemma match_loop_results fuel colors cands m :
  m ∈ (match_loop fuel colors cands []).1 →
  ∃ c a, c ∈ colors ∧ a ∈ cands ∧ cand_name a ≠ EmptyString ∧ m = result_of c a.
Proof.
  revert colors cands. induction fuel as [|fuel IH]; intros colors cands.
  { by intros ?%elem_of_nil. }
  destruct (iteration colors cands) as [|e|m' colors' cands'] eqn:Hit.
  1,2: rewrite match_loop_stop by (by rewrite Hit); by intros ?%elem_of_nil.
  rewrite (match_loop_Commit _ _ _ _ _ _ Hit).
  apply iteration_Commit in Hit as (i & j & c & a & (Hc & Ha & _) & -> & -> & -> & Hne).
  intros [->|Hm]%elem_of_cons.
  - exists c, a. split; [by eapply list_elem_of_lookup_2|].
    split; [by eapply list_elem_of_lookup_2|done].
  - destruct (IH _ _ Hm) as (c' & a' & Hc' & Ha' & Hne' & ->).
    exists c', a'. split; [by eapply list_elem_of_delete_inv|].
    split; [by eapply list_elem_of_delete_inv|done].
Qed.

Lemma main_results_in palette text m :
  m ∈ (main palette text).1 →
  ∃ cands, normalizer (read_color_names text) = Ok cands ∧
    m ∈ (matcher (drop 16 palette) cands).1.
Proof.
  unfold main. destruct (normalizer (read_color_names text)) as [cands|e].
  2: { by intros ?%elem_of_nil. }
  destruct (matcher (drop 16 palette) cands) as [res ex] eqn:Hm.
  intros Hin. exists cands. split; [done|]. rewrite Hm. simpl.
  destruct ex; simpl in Hin; try done.
  by rewrite sort_by_perm in Hin.
Qed.

Lemma main_exit palette text cands :
  normalizer (read_color_names text) = Ok cands →
  (main palette text).2 = (matcher (drop 16 palette) cands).2.
Proof.
  intros Hn. unfold main. rewrite Hn.
  destruct (matcher (drop 16 palette) cands) as [res ex]. by destruct ex.
Qed.

(** X11: when the matching loop is left by its [break], it has produced as
    many results as the shorter of the two lists has elements. *)
Theorem matcher_exhausts_shorter_list colors cands :
  (matcher colors cands).2 = Finished →
  length (matcher colors cands).1 = (length colors `min` length cands)%nat.
Proof. apply match_loop_count. lia. Qed.

Lemma matcher_exhausts_shorter_list_witness :
  length (matcher [PaletteColor 20 (0, 0, 0); PaletteColor 21 (9, 9, 9);
                   PaletteColor 22 (5, 5, 5)]
                  [((1, 1, 1), "onyx", false); ((8, 8, 9), "jet", false)]).1
  = Nat.min (length [PaletteColor 20 (0, 0, 0); PaletteColor 21 (9, 9, 9);
                     PaletteColor 22 (5, 5, 5)])
            (length [((1, 1, 1), "onyx", false); ((8, 8, 9), "jet", false)]).
Proof.
  exact (matcher_exhausts_shorter_list
           [PaletteColor 20 (0, 0, 0); PaletteColor 21 (9, 9, 9); PaletteColor 22 (5, 5, 5)]
           [((1, 1, 1), "onyx", false); ((8, 8, 9), "jet", false)] eq_refl).
Defined.

(** X12: when no row of the catalog has an empty name field, the run does
    not raise an IndexError: it finishes, or the catalog fails to parse. *)
Theorem nonempty_names_no_IndexError palette text :
  (∀ row, row ∈ read_color_names text → raw_name row ≠ Some EmptyString) →
  (main palette text).2 = Finished ∨ (main palette text).2 = Raised ValueError.
Proof.
  intros Hrows.
  destruct (normalizer (read_color_names text)) as [cands|e] eqn:Hnorm.
  - left. rewrite (main_exit _ _ _ Hnorm). apply match_loop_no_raise; [|lia].
    revert Hnorm. apply normalizer_Forall.
    intros st rs fd raw r g b rgb Hrow _ Hempty.
    apply (Hrows _ Hrow). unfold raw_name. simpl. f_equal.
    apply same_or_a_empty. change (cand_name _) with (Py.replace "Grey" "Gray" raw) in Hempty.
    rewrite <- Hempty. apply replace_Grey_same_or_a.
  - right. rewrite (main_normalizer_Raise _ _ _ Hnorm). simpl.
    f_equal. by eapply normalize_rows_Raise_normalizer.
Qed.

Lemma nonempty_names_no_IndexError_witness :
  (main (reserved16 ++ [PaletteColor 99 (10, 10, 10)])
        (catalog_text [catalog_row "12 12 12" "0" "nearblack";
                       catalog_row "46 139 87" "1" "seagreen"])).2 = Finished ∨
  (main (reserved16 ++ [PaletteColor 99 (10, 10, 10)])
        (catalog_text [catalog_row "12 12 12" "0" "nearblack";
                       catalog_row "46 139 87" "1" "seagreen"])).2 = Raised ValueError.
Proof.
  apply nonempty_names_no_IndexError.
  apply Forall_forall. apply (bool_decide_unpack _). vm_compute. exact I.
Defined.

(** ** What a Match Result holds *)

(** X14: every Match Result of a run is that of a palette entry after the
    first sixteen and of a candidate of the normalizer's list with a
    non-empty name: its distance is the distance of the two, its name the
    capitalized name of the candidate. *)
Theorem results_are_true_pairs palette text m :
  m ∈ (main palette text).1 →
  ∃ cands c a,
    normalizer (read_color_names text) = Ok cands ∧
    c ∈ drop 16 palette ∧ a ∈ cands ∧ cand_name a ≠ EmptyString ∧
    res_color m = c ∧ res_dist m = Fin (distance c a) ∧
    better_name m = capitalized (cand_name a) ∧
    test_color m = make_test_color c.
Proof.
  intros (cands & Hnorm & Hm)%main_results_in.
  apply match_loop_results in Hm as (c & a & Hc & Ha & Hne & ->).
  by exists cands, c, a.
Qed.

Lemma results_are_true_pairs_witness :
  ∃ cands c a,
    normalizer (read_color_names (catalog_row "12 12 12" "0" "nearblack")) = Ok cands ∧
    c ∈ drop 16 (reserved16 ++ [PaletteColor 99 (10, 10, 10)]) ∧
    a ∈ cands ∧ cand_name a ≠ EmptyString ∧
    res_color (result_of (PaletteColor 99 (10, 10, 10))
                 ((12, 12, 12), "nearblack", false)) = c ∧
    res_dist (result_of (PaletteColor 99 (10, 10, 10))
                ((12, 12, 12), "nearblack", false)) = Fin (distance c a) ∧
    better_name (result_of (PaletteColor 99 (10, 10, 10))
                   ((12, 12, 12), "nearblack", false)) = capitalized (cand_name a) ∧
    test_color (result_of (PaletteColor 99 (10, 10, 10))
                  ((12, 12, 12), "nearblack", false)) = make_test_color c.
Proof.
  apply (results_are_true_pairs (reserved16 ++ [PaletteColor 99 (10, 10, 10)])
           (catalog_row "12 12 12" "0" "nearblack")).
  vm_compute. apply list_elem_of_here.
Defined.

(** X16: the palette entries of the results are entries after the first
    sixteen, each position taken at most once; so there are at most
    [len(colors) - 16] results. *)
Theorem first_sixteen_never_matched palette text :
  res_color <$> (main palette text).1 ⊆+ drop 16 palette ∧
  (length (main palette text).1 ≤ length palette - 16)%nat.
Proof.
  destruct (main_picks palette text) as (picks & Hres & Hcols & _).
  assert (Hsub : res_color <$> (main palette text).1 ⊆+ drop 16 palette).
  { rewrite Hres, <- list_fmap_compose. exact Hcols. }
  split; [done|].
  apply submseteq_length in Hsub. by rewrite length_fmap, length_drop in Hsub.
Qed.

(** X15: the run ends with a ValueError exactly when the normalizer raises,
    and then it has no result; the matcher never raises one. *)
Theorem ValueError_only_from_catalog palette text :
  ((main palette text).2 = Raised ValueError ↔
   normalizer (read_color_names text) = Raise ValueError) ∧
  (∀ e, normalizer (read_color_names text) = Raise e →
     main palette text = ([], Raised ValueError)).
Proof.
  split; [split|].
  - destruct (normalizer (read_color_names text)) as [cands|e] eqn:Hnorm.
    + rewrite (main_exit _ _ _ Hnorm). intros Hex.
      destruct (match_loop_exit (S (length (drop 16 palette))) (drop 16 palette) cands [])
        as [H|H]; [lia| |]; unfold matcher in Hex; congruence.
    + intros _. f_equal. by eapply normalize_rows_Raise_normalizer.
  - intros Hnorm. by rewrite (main_normalizer_Raise _ _ _ Hnorm).
  - intros e Hnorm. rewrite (main_normalizer_Raise _ _ _ Hnorm).
    by rewrite (normalize_rows_Raise_normalizer _ _ Hnorm).
Qed.

(** ** Feeding rows again *)

Lemma normalize_row_names st row st' :
  normalize_row st row = Ok st' →
  all_colors_names st ⊆ all_colors_names st' ∧ all_colors_rgbs st' = all_colors_rgbs st.
Proof.
  intros [->|(rgb & name & -> & _)]%normalize_row_Ok; [done|].
  split; [|done]. simpl. apply union_subseteq_l.
Qed.

Lemma normalize_rows_names rows st st' :
  normalize_rows st rows = Ok st' → all_colors_names st ⊆ all_colors_names st'.
Proof.
  revert st. induction rows as [|row rows IH]; intros st; simpl.
  - by intros [= <-].
  - destruct (normalize_row st row) as [st1|] eqn:Hrow; [|done]. simpl.
    intros H. apply normalize_row_names in Hrow as [Hsub _].
    etrans; [exact Hsub|]. by apply IH.
Qed.

(** A row that went through is skipped by every later state that knows the
    names it left. *)
Lemma normalize_row_again st row st' st2 :
  normalize_row st row = Ok st' →
  all_colors_rgbs st2 = all_colors_rgbs st →
  all_colors_names st' ⊆ all_colors_names st2 →
  normalize_row st2 row = Ok st2.
Proof.
  destruct row as [|rgb_string [|x [|name [|? ?]]]]; try done.
  rewrite !normalize_row_eq.
  destruct (Py.split_ws rgb_string) as [|r [|g [|b [|? ?]]]]; try done.
  intros Hrow Hrgbs Hnames.
  assert (Hno : passes_filters st2 r g b name = false); [|by rewrite Hno].
  destruct (passes_filters st r g b name) eqn:Hp.
  - destruct (int3 r g b) as [rgb|]; [|done]. injection Hrow as <-.
    unfold passes_filters.
    rewrite (bool_decide_eq_true_2 (Py.replace "Grey" "Gray" name ∈ all_colors_names st2)).
    + simpl. by rewrite andb_false_r.
    + apply Hnames. simpl. apply elem_of_union_r. by apply elem_of_singleton.
  - injection Hrow as <-. unfold passes_filters in *. rewrite Hrgbs.
    destruct (bool_decide ((r, g, b) ∈ all_colors_rgbs st)); [done|].
    destruct (Py.contains_char " " name); [done|].
    destruct (Py.startswith "X11" name); [done|].
    destruct (Py.startswith "Web" name); [done|].
    destruct (bool_decide (Py.lower (Py.replace "Grey" "Gray" name) ∈ basic_colors));
      [by rewrite andb_false_r|].
    simpl in *. rewrite andb_true_r in *.
    apply negb_false_iff, bool_decide_eq_true in Hp.
    apply negb_false_iff, bool_decide_eq_true. by apply Hnames.
Qed.

Lemma normalize_rows_again rows st st' st2 :
  normalize_rows st rows = Ok st' →
  all_colors_rgbs st2 = all_colors_rgbs st →
  all_colors_names st' ⊆ all_colors_names st2 →
  normalize_rows st2 rows = Ok st2.
Proof.
  revert st. induction rows as [|row rows IH]; intros st; simpl; [done|].
  destruct (normalize_row st row) as [st1|] eqn:Hrow; [|done]. simpl.
  intros Hrows Hrgbs Hnames.
  rewrite (normalize_row_again st row st1 st2 Hrow Hrgbs).
  - simpl. apply (IH st1); [done| |done].
    apply normalize_row_names in Hrow as [_ ->]. done.
  - etrans; [|exact Hnames]. by eapply normalize_rows_names.
Qed.

(** X17: rows that come a second time change nothing: when the normalizer
    accepts a catalog, it gives the same candidate list for the catalog
    followed by itself. *)
Theorem repeated_rows_ignored rows cands :
  normalizer rows = Ok cands → normalizer (rows ++ rows) = Ok cands.
Proof.
  unfold normalizer. rewrite normalize_rows_app.
  destruct (normalize_rows norm_init rows) as [st|] eqn:Hrows; [|done]. simpl.
  intros Hc. by rewrite (normalize_rows_again rows norm_init st st Hrows
                           (normalize_rows_rgbs _ _ _ Hrows)).
Qed.

Lemma repeated_rows_ignored_witness :
  normalizer (sample_rows ++ sample_rows) = Ok sample_candidates.
Proof. exact (repeated_rows_ignored sample_rows sample_candidates eq_refl). Defined.

(** ** How the matching loop ends *)

Lemma match_loop_raised fuel colors cands e :
  (match_loop fuel colors cands []).2 = Raised e →
  e = IndexError ∧
  (length (match_loop fuel colors cands []).1 < length colors `min` length cands)%nat ∧
  ∃ a, a ∈ cands ∧ cand_name a = EmptyString.
Proof.
  revert colors cands. induction fuel as [|fuel IH]; intros colors cands; [done|].
  destruct (iteration colors cands) as [|e'|m colors' cands'] eqn:Hit.
  - simpl. by rewrite Hit.
  - rewrite match_loop_stop by (by rewrite Hit). simpl. rewrite Hit. simpl.
    intros [= <-].
    apply iteration_Raises in Hit as (-> & i & j & c & a & (Hc & Ha & _) & Hempty).
    split; [done|]. split.
    + apply lookup_lt_Some in Hc, Ha. simpl. lia.
    + exists a. split; [by eapply list_elem_of_lookup_2|done].
  - rewrite (match_loop_Commit_exit _ _ _ _ _ _ Hit), (match_loop_Commit _ _ _ _ _ _ Hit).
    pose proof (iteration_Commit_length _ _ _ _ _ Hit) as [Hc Ha].
    apply iteration_Commit in Hit as (i & j & _ & _ & _ & -> & -> & _).
    intros (-> & Hlt & a & Hin & Hempty)%IH.
    split; [done|]. split; [simpl; lia|].
    exists a. split; [by eapply list_elem_of_delete_inv|done].
Qed.

(** X18: the matching loop always ends, and more turns than there are
    palette entries never change what it gives.  It ends by its [break],
    with as many results as the shorter list has elements, or by an
    IndexError, with fewer results, and then a candidate has the empty
    name. *)
Theorem matcher_ends colors cands :
  (∀ fuel, (length colors < fuel)%nat →
     match_loop fuel colors cands [] = matcher colors cands) ∧
  match (matcher colors cands).2 with
  | Finished =>
      length (matcher colors cands).1 = (length colors `min` length cands)%nat
  | Raised e =>
      e = IndexError ∧
      (length (matcher colors cands).1 < length colors `min` length cands)%nat ∧
      ∃ a, a ∈ cands ∧ cand_name a = EmptyString
  | OutOfFuel => False
  end.
Proof.
  split.
  - intros fuel Hfuel. apply match_loop_fuel; lia.
  - destruct (matcher colors cands).2 as [|e|] eqn:Hex.
    + apply match_loop_count; [lia|done].
    + by apply match_loop_raised.
    + destruct (match_loop_exit (S (length colors)) colors cands []) as [H|H];
        [lia| |]; unfold matcher in Hex; congruence.
Qed.
